(** * yorkerbot: center-balanced caption lines and caption layout

    A shallow embedding of the caption code of the repository
    ([calcAvgLineWidth], [createBalancedLines] and the geometry computed by
    [_caption] / [captionImage]), followed by the properties of the
    specification that were checked against it.

    Conventions of the embedding.
    - A JavaScript string is the list of its UTF-16 code units.
    - The balancer is written once, over an interface [JsNumber] of the
      number operations it uses.  Two instances are given: exact rational
      arithmetic ([exact], over [Q]) and IEEE 754 binary64 ([binary64],
      the arithmetic JavaScript really performs).  Structural properties
      are proved for every instance; properties about sums of widths are
      proved for exact arithmetic.
    - [linesNeeded] and [lines.length] are counts and are kept in [nat].
    - A [for ... of] loop over an array is a [fold_left] of its body.
    - The geometry of the layout is written over the same interface,
      extended by [JsMath] with the other operations [_caption] uses, and
      has the same two instances.  [x|0] and [Math.ceil] are read off the
      value of a number ([n_int32], [n_ceil]).  The width and height of
      the canvas object are integers and are kept in [Z].  Text measurement
      belongs to the graphics library and is a parameter.
    - Where a property needs sums without rounding error, this is either
      an assumption of the theorem ([unrounded]) or the theorem is stated
      for exact arithmetic and says so; [binary64_rounds_the_sums] and
      [binary64_rounds_the_layout] show what rounding does. *)

From Stdlib Require Import Strings.String Strings.Ascii.
From Stdlib Require Import ZArith QArith Qround List Bool Lia Lqa.
From Stdlib Require Floats.PrimFloat Floats.FloatOps Floats.SpecFloat.
From Stdlib Require Numbers.Cyclic.Int63.Uint63.
Import ListNotations.

Set Implicit Arguments.

(* ------------------------------------------------------------------ *)
(** ** JavaScript strings *)

Module JsString.

Definition code_unit := N.
Definition jsstring := list code_unit.

(** A string literal (ASCII only). *)
Definition lit (s : string) : jsstring :=
  map N_of_ascii (list_ascii_of_string s).

(** The character class [\s] of a JavaScript regular expression:
    WhiteSpace and LineTerminator code points of ECMAScript.  (U+180E,
    which older editions counted as white space, is left out; the proofs
    below only use that U+0020 is white space.) *)
Definition is_white_space (c : code_unit) : bool :=
  ((9 <=? c) && (c <=? 13) || (c =? 32) || (c =? 160) || (c =? 5760)
   || (8192 <=? c) && (c <=? 8202) || (c =? 8232) || (c =? 8233)
   || (c =? 8239) || (c =? 8287) || (c =? 12288) || (c =? 65279))%N.

Definition SPACE : jsstring := [32%N].

(** [Array.prototype.join]. *)
Fixpoint join (sep : jsstring) (l : list jsstring) : jsstring :=
  match l with
  | [] => []
  | [x] => x
  | x :: r => x ++ sep ++ join sep r
  end.

(** [s.split(/\s+/)]: the pieces between maximal runs of white space.
    [in_gap] tells that the previous code unit was white space, [tok] is the
    piece being read.  The empty string gives one empty piece, and leading
    or trailing white space gives an empty first or last piece. *)
Fixpoint split_from (in_gap : bool) (tok : jsstring) (s : jsstring)
  : list jsstring :=
  match s with
  | [] => [tok]
  | c :: r =>
      if is_white_space c
      then if in_gap then split_from true [] r
           else tok :: split_from true [] r
      else split_from false (tok ++ [c]) r
  end.

Definition split_ws (s : jsstring) : list jsstring := split_from false [] s.

Definition ws_free (t : jsstring) : bool :=
  forallb (fun c => negb (is_white_space c)) t.

Definition nonempty (t : jsstring) : bool :=
  match t with [] => false | _ => true end.

(** The shape of what [split(/\s+/)] returns: pieces without white space,
    of which only the first and the last may be empty. *)
Fixpoint inner_pieces (l : list jsstring) : bool :=
  match l with
  | [] => false
  | [x] => ws_free x
  | x :: r => ws_free x && nonempty x && inner_pieces r
  end.

Definition pieces (l : list jsstring) : bool :=
  match l with
  | [] => false
  | [x] => ws_free x
  | x :: r => ws_free x && inner_pieces r
  end.

End JsString.
Import JsString.

(* ------------------------------------------------------------------ *)
(** ** Numbers *)

(** The operations on numbers used by the balancer:
    [0], [+], [/], the conversion of a count, [===], [<=] and [>]. *)
Class JsNumber (num : Type) := {
  n_zero : num;
  n_add : num -> num -> num;
  n_div : num -> num -> num;
  n_of_count : nat -> num;
  n_eqb : num -> num -> bool;
  n_leb : num -> num -> bool;
  n_gtb : num -> num -> bool
}.

(** Exact arithmetic.  [Qdiv] by zero is [0] rather than JavaScript's
    [NaN] or [Infinity]; the balancer only divides by [linesNeeded], which
    is never zero (see [calcAvgLineWidth_linesNeeded_positive]), and the
    layout by 2 and by the width of the image, where a width of 0 gives
    [comicHeight = 0] in JavaScript too ([Infinity|0] and [NaN|0] are 0). *)
#[export] Instance exact : JsNumber Q := {
  n_zero := 0%Q;
  n_add := Qplus;
  n_div := Qdiv;
  n_of_count := fun n => inject_Z (Z.of_nat n);
  n_eqb := Qeq_bool;
  n_leb := Qle_bool;
  n_gtb := fun a b => negb (Qle_bool a b)
}.

(** IEEE 754 binary64, round to nearest even. *)
Definition float_of_Z (z : Z) : PrimFloat.float :=
  PrimFloat.of_uint63 (Uint63.of_Z z).

#[export] Instance binary64 : JsNumber PrimFloat.float := {
  n_zero := PrimFloat.zero;
  n_add := PrimFloat.add;
  n_div := PrimFloat.div;
  n_of_count := fun n => float_of_Z (Z.of_nat n);
  n_eqb := PrimFloat.eqb;
  n_leb := PrimFloat.leb;
  n_gtb := fun a b => PrimFloat.ltb b a
}.

(** Outcome of a call: a value, or a thrown error.  The caption code has no
    [throw]; the two failures are the conditions the specification names,
    kept so that its statements about errors can be written down. *)
Inductive Failure := InvalidInput | InvalidConfiguration.

Inductive Completion (A : Type) :=
| Normal (v : A)
| Throw (e : Failure).
Arguments Throw {A} e.

(* ------------------------------------------------------------------ *)
(** ** The balancer *)

Section Balancer.

Context {num : Type} {arith : JsNumber num}.

Record MeasuredWord := { text : jsstring; width : num }.

(** *** Pass 1: [calcAvgLineWidth] *)

Record AvgState := {
  a_lineWidth : num;
  a_totalTextWidth : num;
  a_linesNeeded : nat
}.

Definition calcAvgLineWidth_init : AvgState :=
  {| a_lineWidth := n_zero; a_totalTextWidth := n_zero; a_linesNeeded := 1 |}.

(** Body of the loop. *)
Definition calcAvgLineWidth_step (spaceWidth maxTextWidth : num)
    (st : AvgState) (word : MeasuredWord) : AvgState :=
  let wordWidth := width word in
  let '(lineWidth, linesNeeded, addWidth) :=
    if negb (n_eqb (a_lineWidth st) n_zero) then
      if n_leb (n_add (n_add (a_lineWidth st) spaceWidth) wordWidth)
               maxTextWidth
      then (a_lineWidth st, a_linesNeeded st, n_add wordWidth spaceWidth)
      else (n_zero, S (a_linesNeeded st), wordWidth)
    else (a_lineWidth st, a_linesNeeded st, wordWidth) in
  {| a_lineWidth := n_add lineWidth addWidth;
     a_totalTextWidth := n_add (a_totalTextWidth st) addWidth;
     a_linesNeeded := linesNeeded |}.

Definition calcAvgLineWidth_loop (words : list MeasuredWord)
    (spaceWidth maxTextWidth : num) : AvgState :=
  fold_left (calcAvgLineWidth_step spaceWidth maxTextWidth) words
            calcAvgLineWidth_init.

Definition calcAvgLineWidth (words : list MeasuredWord)
    (spaceWidth maxTextWidth : num) : nat * num :=
  let st := calcAvgLineWidth_loop words spaceWidth maxTextWidth in
  (a_linesNeeded st,
   n_div (a_totalTextWidth st) (n_of_count (a_linesNeeded st))).

(** *** Pass 2: [createBalancedLines] *)

Record LineState := {
  lines : list jsstring;
  totalTextWidth : num;
  lineWords : list jsstring;
  lineWidth : num;
  cumAvgLineWidth : num;
  lastLine : bool
}.

Definition createBalancedLines_init (linesNeeded : nat) (avgLineWidth : num)
  : LineState :=
  {| lines := [];
     totalTextWidth := n_zero;
     lineWords := [];
     lineWidth := n_zero;
     cumAvgLineWidth := avgLineWidth;
     lastLine := Nat.eqb linesNeeded 1 |}.

(** Body of the loop. *)
Definition createBalancedLines_step (spaceWidth : num) (linesNeeded : nat)
    (avgLineWidth maxTextWidth : num)
    (st : LineState) (word : MeasuredWord) : LineState :=
  let wordWidth := width word in
  if negb (n_eqb (lineWidth st) n_zero) then
    let wordAndSpaceWidth := n_add wordWidth spaceWidth in
    if n_gtb (n_add (lineWidth st) wordAndSpaceWidth) maxTextWidth
       || (negb (lastLine st)
           && n_gtb (n_add (totalTextWidth st) wordAndSpaceWidth)
                    (cumAvgLineWidth st))
    then
      (* Clear current line *)
      let lines' := lines st ++ [join SPACE (lineWords st)] in
      {| lines := lines';
         totalTextWidth := n_add (totalTextWidth st) wordWidth;
         lineWords := [text word];
         lineWidth := n_add n_zero wordWidth;
         cumAvgLineWidth := n_add (cumAvgLineWidth st) avgLineWidth;
         lastLine := Nat.eqb (List.length lines') linesNeeded |}
    else
      {| lines := lines st;
         totalTextWidth := n_add (totalTextWidth st) wordAndSpaceWidth;
         lineWords := lineWords st ++ [text word];
         lineWidth := n_add (lineWidth st) wordAndSpaceWidth;
         cumAvgLineWidth := cumAvgLineWidth st;
         lastLine := lastLine st |}
  else
    {| lines := lines st;
       totalTextWidth := n_add (totalTextWidth st) wordWidth;
       lineWords := lineWords st ++ [text word];
       lineWidth := n_add (lineWidth st) wordWidth;
       cumAvgLineWidth := cumAvgLineWidth st;
       lastLine := lastLine st |}.

Definition createBalancedLines_loop (words : list MeasuredWord)
    (spaceWidth : num) (linesNeeded : nat) (avgLineWidth maxTextWidth : num)
  : LineState :=
  fold_left
    (createBalancedLines_step spaceWidth linesNeeded avgLineWidth maxTextWidth)
    words (createBalancedLines_init linesNeeded avgLineWidth).

(** The flush after the loop. *)
Definition flush (st : LineState) : list jsstring :=
  match lineWords st with
  | [] => lines st
  | _ => lines st ++ [join SPACE (lineWords st)]
  end.

Definition createBalancedLines (words : list MeasuredWord)
    (spaceWidth : num) (linesNeeded : nat) (avgLineWidth maxTextWidth : num)
  : list jsstring :=
  flush (createBalancedLines_loop words spaceWidth linesNeeded avgLineWidth
                                  maxTextWidth).

(** The two calls made by [_caption]: pass 1, then pass 2 on its result.
    Neither function has a [throw], so the outcome is always [Normal]. *)
Definition balance (words : list MeasuredWord)
    (spaceWidth maxTextWidth : num) : Completion (list jsstring) :=
  let '(linesNeeded, avgLineWidth) :=
    calcAvgLineWidth words spaceWidth maxTextWidth in
  Normal (createBalancedLines words spaceWidth linesNeeded avgLineWidth
                              maxTextWidth).

End Balancer.

Arguments MeasuredWord num : clear implicits.
Arguments AvgState num : clear implicits.
Arguments LineState num : clear implicits.

(* ------------------------------------------------------------------ *)
(** ** Numbers of the layout code *)

(** Result of a JavaScript division of two finite numbers. *)
Inductive Quotient :=
| Finite (q : Q)
| PosInfinity
| NegInfinity
| NotANumber.

Definition js_div (a b : Q) : Quotient :=
  if Qeq_bool b 0 then
    if Qeq_bool a 0 then NotANumber
    else if Qle_bool 0 a then PosInfinity else NegInfinity
  else Finite (a / b).

(** [x <= c] for a finite [c]. *)
Definition js_le (x : Quotient) (c : Q) : bool :=
  match x with
  | Finite q => Qle_bool q c
  | NegInfinity => true
  | PosInfinity | NotANumber => false
  end.

(** Rounding toward zero. *)
Definition Qtrunc (x : Q) : Z := Z.quot (Qnum x) (Zpos (Qden x)).

(** [x|0]: ToInt32 of a finite number. *)
Definition to_int32 (x : Q) : Z :=
  let k := (Qtrunc x mod 2 ^ 32)%Z in
  if (k <? 2 ^ 31)%Z then k else (k - 2 ^ 32)%Z.

(** [lines.length - 1], as a rational. *)
Definition length_minus_1 (A : Type) (l : list A) : Q :=
  inject_Z (Z.of_nat (List.length l)) - 1.

(** What the layout code needs besides the operations of the balancer:
    [-], [*], an integer as a number, a decimal literal of the source (the
    number nearest to it) and the value of a number, from which
    [Math.ceil] and [x|0] are read off.  The value of [NaN] and of the
    infinities is taken to be 0, which is what [x|0] makes of them. *)
Class JsMath (num : Type) {arith : JsNumber num} := {
  n_sub : num -> num -> num;
  n_mul : num -> num -> num;
  n_of_Z : Z -> num;
  n_lit : Q -> num;
  n_val : num -> Q
}.
Arguments JsMath num {arith}.

#[export] Instance exact_math : JsMath Q := {
  n_sub := Qminus;
  n_mul := Qmult;
  n_of_Z := inject_Z;
  n_lit := fun q => q;
  n_val := fun q => q
}.

(** The binary64 number nearest to an integer. *)
Definition float_of_int (z : Z) : PrimFloat.float :=
  FloatOps.SF2Prim
    (SpecFloat.binary_normalize FloatOps.prec FloatOps.emax z 0 false).

(** The rational a binary64 number stands for. *)
Definition float_value (x : PrimFloat.float) : Q :=
  match FloatOps.Prim2SF x with
  | SpecFloat.S754_finite s m e =>
      let n := if s then Zneg m else Zpos m in
      if (0 <=? e)%Z then inject_Z (n * 2 ^ e) else n # (2 ^ Z.to_pos (- e))
  | _ => 0
  end.

(** Division is rounded correctly, so the quotient of numerator and
    denominator is the binary64 number nearest to the literal. *)
#[export] Instance binary64_math : JsMath PrimFloat.float := {
  n_sub := PrimFloat.sub;
  n_mul := PrimFloat.mul;
  n_of_Z := float_of_int;
  n_lit := fun q =>
             PrimFloat.div (float_of_int (Qnum q))
                           (float_of_int (Zpos (Qden q)));
  n_val := float_value
}.

Section LayoutNumbers.

Context {num : Type} {arith : JsNumber num} {math : JsMath num}.

(** [Math.ceil(x)] for a finite [x], an integer. *)
Definition n_ceil (x : num) : Z := Qceiling (n_val x).

(** [x|0]. *)
Definition n_int32 (x : num) : Z := to_int32 (n_val x).

(** A measured line: the object [{ text, width, height }]. *)
Record Line := { l_text : jsstring; l_width : num; l_height : num }.

(** [totalLineHeight], accumulated while the lines are measured. *)
Definition totalLineHeight (lines : list Line) : num :=
  fold_left (fun acc line => n_add acc (l_height line)) lines n_zero.

(** The number [captionHeight] rounds:
    [totalLineHeight + (lines.length - 1) * lineSpacing + captionMarginTop]. *)
Definition captionExtent (lineSpacing captionMarginTop : num)
    (lines : list Line) : num :=
  n_add (n_add (totalLineHeight lines)
               (n_mul (n_sub (n_of_count (List.length lines)) (n_of_count 1))
                      lineSpacing))
        captionMarginTop.

End LayoutNumbers.

Arguments Line num : clear implicits.

(* ------------------------------------------------------------------ *)
(** ** [_caption], canvas backend (the copy without square adjustment) *)

Module Canvas.

Section Caption.

Context {num : Type} {arith : JsNumber num} {math : JsMath num}.

Record Opts := {
  captionMarginSides : num;
  captionMarginTop : num;
  lineSpacing : num;
  outerPadding : num;
  resizeComicWidth : num
}.

Definition CAPTION_DEFAULT_OPTS : Opts :=
  {| captionMarginSides := n_of_count 40;
     captionMarginTop := n_of_count 25;
     lineSpacing := n_of_count 2;
     outerPadding := n_of_count 20;
     resizeComicWidth := n_of_count 600 |}.

Record Image := { imageWidth : num; imageHeight : num }.

(** What [ctx.measureText] returns, as far as it is read. *)
Record TextMetrics := {
  m_width : num;
  emHeightAscent : num;
  emHeightDescent : num
}.

(** The geometry handed to the canvas: the size given to [createCanvas],
    the final size ([fillRect]), the rectangle of [drawImage] and the
    position of each [fillText]. *)
Record Layout := {
  initialCanvas : num * num;
  captionHeight : Z;
  finalCanvas : num * num;
  imageRect : num * num * num * num;
  linePositions : list (jsstring * num * num)
}.

(** [(scaleFactor * imageHeight)|0]. *)
Definition comicHeight (opts : Opts) (image : Image) : Z :=
  let scaleFactor := n_div (resizeComicWidth opts) (imageWidth image) in
  n_int32 (n_mul scaleFactor (imageHeight image)).

Definition maxTextWidth (opts : Opts) (image : Image) : num :=
  n_sub (imageWidth image) (n_mul (captionMarginSides opts) (n_of_count 2)).

Definition measureWords (measureText : jsstring -> TextMetrics)
    (caption : jsstring) : list (MeasuredWord num) :=
  map (fun word => {| text := word; width := m_width (measureText word) |})
      (split_ws caption).

Definition measureLine (measureText : jsstring -> TextMetrics)
    (text : jsstring) : Line num :=
  let measure := measureText text in
  {| l_text := text;
     l_width := m_width measure;
     l_height := n_add (emHeightAscent measure) (emHeightDescent measure) |}.

(** [Math.ceil(totalLineHeight + (lines.length - 1) * lineSpacing
               + captionMarginTop)]. *)
Definition calcCaptionHeight (opts : Opts) (lines : list (Line num)) : Z :=
  n_ceil (captionExtent (lineSpacing opts) (captionMarginTop opts) lines).

(** The loop drawing the text. *)
Fixpoint placeLines (finalImageWidth lineSpacing textY : num)
    (lines : list (Line num)) : list (jsstring * num * num) :=
  match lines with
  | [] => []
  | line :: rest =>
      let textX :=
        n_div (n_sub finalImageWidth (l_width line)) (n_of_count 2) in
      (l_text line, textX, textY)
      :: placeLines finalImageWidth lineSpacing
                    (n_add textY (n_add (l_height line) lineSpacing)) rest
  end.

(** [_caption] from the measured lines on. *)
Definition layout (opts : Opts) (image : Image) (lines : list (Line num))
  : Layout :=
  let comicWidth := resizeComicWidth opts in
  let comicHeight := n_of_Z (comicHeight opts image) in
  let finalImageWidth :=
    n_add comicWidth (n_mul (n_of_count 2) (outerPadding opts)) in
  let finalImageHeight0 :=
    n_add comicHeight (n_mul (n_of_count 2) (outerPadding opts)) in
  let captionHeight := calcCaptionHeight opts lines in
  let finalImageHeight := n_add finalImageHeight0 (n_of_Z captionHeight) in
  {| initialCanvas := (finalImageWidth, finalImageHeight0);
     captionHeight := captionHeight;
     finalCanvas := (finalImageWidth, finalImageHeight);
     imageRect := (outerPadding opts, outerPadding opts,
                   comicWidth, comicHeight);
     linePositions :=
       placeLines finalImageWidth (lineSpacing opts)
                  (n_add (n_add (outerPadding opts) comicHeight)
                         (captionMarginTop opts))
                  lines |}.

Definition _caption (measureText : jsstring -> TextMetrics) (image : Image)
    (caption : jsstring) (opts : Opts) : Layout :=
  let maxTextWidth := maxTextWidth opts image in
  let spaceWidth := m_width (measureText SPACE) in
  let words := measureWords measureText caption in
  let '(linesNeeded, avgLineWidth) :=
    calcAvgLineWidth words spaceWidth maxTextWidth in
  let lines :=
    map (measureLine measureText)
        (createBalancedLines words spaceWidth linesNeeded avgLineWidth
                             maxTextWidth) in
  layout opts image lines.

End Caption.

Arguments Opts num : clear implicits.
Arguments Image num : clear implicits.
Arguments TextMetrics num : clear implicits.
Arguments Layout num : clear implicits.

End Canvas.

(* ------------------------------------------------------------------ *)
(** ** [_caption], canvas backend with square adjustment: the steps that
       resize the canvas object, whose width and height are integers *)

Module SquareCanvas.

Record CanvasSize := { canvas_width : Z; canvas_height : Z }.

(** [captionHeight], with the options [lineSpacing], [captionMarginTop]. *)
Definition calcCaptionHeight {num : Type} {arith : JsNumber num}
    {math : JsMath num} (lineSpacing captionMarginTop : num)
    (lines : list (Line num)) : Z :=
  n_ceil (captionExtent lineSpacing captionMarginTop lines).

(** [canvas.height = canvas.height + captionHeight]. *)
Definition addCaption (canvas : CanvasSize) (captionHeight : Z)
  : CanvasSize :=
  {| canvas_width := canvas_width canvas;
     canvas_height := canvas_height canvas + captionHeight |}.

(** [if (canvas.width < canvas.height &&
         (canvas.height / canvas.width) <= 1.75)
       canvas.width = canvas.height]. *)
Definition squareAdjust (canvas : CanvasSize) : CanvasSize :=
  if (canvas_width canvas <? canvas_height canvas)%Z
     && js_le (js_div (inject_Z (canvas_height canvas))
                      (inject_Z (canvas_width canvas)))
              (175 # 100)
  then {| canvas_width := canvas_height canvas;
          canvas_height := canvas_height canvas |}
  else canvas.

(** The canvas after the caption lines are known. *)
Definition resize {num : Type} {arith : JsNumber num} {math : JsMath num}
    (canvas : CanvasSize) (lineSpacing captionMarginTop : num)
    (lines : list (Line num)) : CanvasSize :=
  squareAdjust
    (addCaption canvas (calcCaptionHeight lineSpacing captionMarginTop lines)).

End SquareCanvas.

(* ------------------------------------------------------------------ *)
(** ** [captionImage] and [_caption], gd backend: the caption height.
       Bounding boxes of gd are integers, and so are the heights of the
       lines and their sum. *)

Module Gd.

Section Caption.

Context {num : Type} {arith : JsNumber num} {math : JsMath num}.

(** [(fontSize * 1.4)|0]. *)
Definition minLineHeight (fontSize : num) : Z :=
  n_int32 (n_mul fontSize (n_lit (14 # 10))).

(** [Math.max(height, minLineHeight)] for each line, summed. *)
Definition totalLineHeight (minLineHeight : Z) (heights : list Z) : Z :=
  fold_left (fun acc height => acc + Z.max height minLineHeight)%Z heights 0%Z.

(** The number [captionHeight] truncates. *)
Definition captionExtent (minLineHeight : Z)
    (lineSpacing captionMargin : num) (heights : list Z) : num :=
  n_add (n_add (n_of_Z (totalLineHeight minLineHeight heights))
               (n_mul (n_sub (n_of_count (List.length heights)) (n_of_count 1))
                      lineSpacing))
        captionMargin.

Definition calcCaptionHeight (minLineHeight : Z)
    (lineSpacing captionMargin : num) (heights : list Z) : Z :=
  n_int32 (captionExtent minLineHeight lineSpacing captionMargin heights).

(** [finalImageHeight] of [captionImage] in bot.js, whose settings are
    constants: [fontSize = 14], [lineSpacing = 2], [outerPadding = 20],
    [captionMarginVert = outerPadding + 4]. *)
Definition captionImage_finalImageHeight (comicHeight : Z)
    (heights : list Z) : Z :=
  let outerPadding := 20%Z in
  let captionMarginVert := (outerPadding + 4)%Z in
  (comicHeight + 2 * outerPadding
   + calcCaptionHeight (minLineHeight (n_of_count 14)) (n_of_count 2)
                       (n_of_Z captionMarginVert) heights)%Z.

End Caption.

End Gd.

(* ------------------------------------------------------------------ *)
(** ** Reading [createBalancedLines]: which words each line holds *)

Section Grouping.

Context {num : Type} {arith : JsNumber num}.

(** [lineWords.join(" ")] for a line holding the words [g]. *)
Definition render (g : list (MeasuredWord num)) : jsstring :=
  join SPACE (map (@text num) g).

(** (a) the hard limit: the word and a space do not fit in the line. *)
Definition hardLimit (spaceWidth maxTextWidth : num)
    (st : LineState num) (word : MeasuredWord num) : bool :=
  n_gtb (n_add (lineWidth st) (n_add (width word) spaceWidth)) maxTextWidth.

(** (b) the soft limit: the text so far, the word and a space pass the
    cumulative average. *)
Definition softLimit (spaceWidth : num)
    (st : LineState num) (word : MeasuredWord num) : bool :=
  n_gtb (n_add (totalTextWidth st) (n_add (width word) spaceWidth))
        (cumAvgLineWidth st).

(** The test under which the loop body clears the current line. *)
Definition closes (spaceWidth maxTextWidth : num)
    (st : LineState num) (word : MeasuredWord num) : bool :=
  negb (n_eqb (lineWidth st) n_zero)
  && (hardLimit spaceWidth maxTextWidth st word
      || (negb (lastLine st) && softLimit spaceWidth st word)).

(** The words of the lines pushed so far, and of the line being built. *)
Record Groups := {
  closed : list (list (MeasuredWord num));
  current : list (MeasuredWord num)
}.

Definition groups_step (spaceWidth maxTextWidth : num)
    (st : LineState num) (g : Groups) (word : MeasuredWord num) : Groups :=
  if closes spaceWidth maxTextWidth st word
  then {| closed := closed g ++ [current g]; current := [word] |}
  else {| closed := closed g; current := current g ++ [word] |}.

(** The loop of [createBalancedLines], run together with its groups. *)
Fixpoint trace (spaceWidth : num) (linesNeeded : nat)
    (avgLineWidth maxTextWidth : num)
    (st : LineState num) (g : Groups) (words : list (MeasuredWord num))
  : LineState num * Groups :=
  match words with
  | [] => (st, g)
  | word :: rest =>
      trace spaceWidth linesNeeded avgLineWidth maxTextWidth
            (createBalancedLines_step spaceWidth linesNeeded avgLineWidth
                                      maxTextWidth st word)
            (groups_step spaceWidth maxTextWidth st g word)
            rest
  end.

Definition all_groups (g : Groups) : list (list (MeasuredWord num)) :=
  match current g with
  | [] => closed g
  | _ => closed g ++ [current g]
  end.

Definition line_groups (words : list (MeasuredWord num))
    (spaceWidth : num) (linesNeeded : nat) (avgLineWidth maxTextWidth : num)
  : list (list (MeasuredWord num)) :=
  all_groups
    (snd (trace spaceWidth linesNeeded avgLineWidth maxTextWidth
                (createBalancedLines_init linesNeeded avgLineWidth)
                {| closed := []; current := [] |} words)).

(** *** The closing rule in the words of the specification

    "The line being built is not the last line: the number of lines closed
    so far is strictly less than [linesNeeded - 1]." *)
Definition notLastLine_spec (linesNeeded : nat) (st : LineState num) : bool :=
  Nat.ltb (List.length (lines st)) (linesNeeded - 1).

Definition closes_spec (spaceWidth : num) (linesNeeded : nat)
    (maxTextWidth : num) (st : LineState num) (word : MeasuredWord num)
  : bool :=
  negb (n_eqb (lineWidth st) n_zero)
  && (hardLimit spaceWidth maxTextWidth st word
      || (notLastLine_spec linesNeeded st && softLimit spaceWidth st word)).

Definition with_lastLine (b : bool) (st : LineState num) : LineState num :=
  {| lines := lines st;
     totalTextWidth := totalTextWidth st;
     lineWords := lineWords st;
     lineWidth := lineWidth st;
     cumAvgLineWidth := cumAvgLineWidth st;
     lastLine := b |}.

(** Pass 2 with the closing rule of the specification. *)
Definition createBalancedLines_spec (words : list (MeasuredWord num))
    (spaceWidth : num) (linesNeeded : nat) (avgLineWidth maxTextWidth : num)
  : list jsstring :=
  flush
    (fold_left
       (fun st word =>
          createBalancedLines_step spaceWidth linesNeeded avgLineWidth
            maxTextWidth
            (with_lastLine (negb (notLastLine_spec linesNeeded st)) st) word)
       words (createBalancedLines_init linesNeeded avgLineWidth)).

Definition balance_spec (words : list (MeasuredWord num))
    (spaceWidth maxTextWidth : num) : list jsstring :=
  let '(linesNeeded, avgLineWidth) :=
    calcAvgLineWidth words spaceWidth maxTextWidth in
  createBalancedLines_spec words spaceWidth linesNeeded avgLineWidth
                           maxTextWidth.

(** *** Invariants of the loop *)

(** The groups describe the state: [seen] are the words read so far. *)
Record Tracks (seen : list (MeasuredWord num))
    (st : LineState num) (g : Groups) : Prop := {
  tr_lines : lines st = map render (closed g);
  tr_lineWords : lineWords st = map (@text num) (current g);
  tr_seen : concat (closed g) ++ current g = seen;
  tr_closed : Forall (fun grp => grp <> []) (closed g);
  tr_empty : current g = [] -> lineWidth st = n_zero
}.

(** What the flag holds: before any line is pushed, [linesNeeded === 1];
    afterwards, whether the number of lines pushed is [linesNeeded]. *)
Definition lastLine_value (linesNeeded : nat) (st : LineState num) : bool :=
  match lines st with
  | [] => Nat.eqb linesNeeded 1
  | _ => Nat.eqb (List.length (lines st)) linesNeeded
  end.

(** [lineWidth] as the loop accumulates it for a line holding the words
    [g]: a word counts with a space when [lineWidth] is not 0. *)
Definition running_width (spaceWidth : num) (g : list (MeasuredWord num))
  : num :=
  fold_left (fun lineWidth word =>
               if n_eqb lineWidth n_zero
               then n_add lineWidth (width word)
               else n_add lineWidth (n_add (width word) spaceWidth))
            g n_zero.

(** Every word appended to the line [g] when its width was not 0 left the
    width within [maxTextWidth], on the numbers the loop compares: the
    width after the word is not greater than [maxTextWidth]. *)
Definition appended_within (spaceWidth maxTextWidth : num)
    (g : list (MeasuredWord num)) : Prop :=
  forall pre word post,
    g = pre ++ word :: post ->
    n_eqb (running_width spaceWidth pre) n_zero = false ->
    n_gtb (running_width spaceWidth (pre ++ [word])) maxTextWidth = false.

Record WithinLimit (spaceWidth maxTextWidth : num)
    (st : LineState num) (g : Groups) : Prop := {
  w_width : lineWidth st = running_width spaceWidth (current g);
  w_closed : Forall (appended_within spaceWidth maxTextWidth) (closed g);
  w_current : appended_within spaceWidth maxTextWidth (current g)
}.

End Grouping.

Arguments Groups num : clear implicits.

(** The one fact about numbers the loops rely on: [0 === 0]. *)
Class JsNumberLaws (num : Type) {arith : JsNumber num} : Prop := {
  zero_eqb_zero : n_eqb n_zero n_zero = true
}.
Arguments JsNumberLaws num {arith}.

(** Width of a line as the specification counts it: the widths of its
    words and one space between consecutive words. *)
Definition sum_widths (g : list (MeasuredWord Q)) : Q :=
  fold_right (fun word acc => width word + acc) 0 g.

Definition line_width (spaceWidth : Q) (g : list (MeasuredWord Q)) : Q :=
  sum_widths g + length_minus_1 g * spaceWidth.

(** A line of two or more words is within [maxTextWidth]. *)
Definition line_fits (spaceWidth maxTextWidth : Q)
    (grp : list (MeasuredWord Q)) : Prop :=
  (2 <= List.length grp)%nat -> line_width spaceWidth grp <= maxTextWidth.

(** [lineWidth] is the width of the line being built, and every line of
    two or more words fits. *)
Record LinesFit (spaceWidth maxTextWidth : Q)
    (st : LineState Q) (g : Groups Q) : Prop := {
  f_empty : current g = [] -> lineWidth st = 0;
  f_width : current g <> [] ->
            lineWidth st == line_width spaceWidth (current g);
  f_pos : current g <> [] -> 0 < lineWidth st;
  f_closed : Forall (line_fits spaceWidth maxTextWidth) (closed g);
  f_current : line_fits spaceWidth maxTextWidth (current g)
}.

(** *** Invariants relating the two passes, in exact arithmetic *)

(** A count as a number. *)
Definition count (n : nat) : Q := inject_Z (Z.of_nat n).

(** The widths of the words, each followed by a space. *)
Definition sum_with_spaces (spaceWidth : Q) (g : list (MeasuredWord Q)) : Q :=
  fold_right (fun word acc => width word + spaceWidth + acc) 0 g.

(** Pass 1 after the words [seen]: the total lacks one space per line. *)
Record Pass1Total (spaceWidth : Q) (seen : list (MeasuredWord Q))
    (st : AvgState Q) : Prop := {
  p1_line : 0 < a_lineWidth st;
  p1_nonneg : 0 <= a_totalTextWidth st;
  p1_count : (1 <= a_linesNeeded st)%nat;
  p1_total : a_totalTextWidth st
             == sum_with_spaces spaceWidth seen
                - count (a_linesNeeded st) * spaceWidth
}.

(** Pass 2 after the words [seen]. *)
Record Pass2Total (spaceWidth avgLineWidth : Q)
    (seen : list (MeasuredWord Q)) (st : LineState Q) : Prop := {
  p2_start : seen = [] ->
             lineWidth st = 0 /\ totalTextWidth st = 0 /\ lines st = [];
  p2_line : seen <> [] -> 0 < lineWidth st;
  p2_total : seen <> [] ->
             totalTextWidth st
             == sum_with_spaces spaceWidth seen
                - (count (List.length (lines st)) + 1) * spaceWidth;
  p2_cum : cumAvgLineWidth st
           == (count (List.length (lines st)) + 1) * avgLineWidth
}.

(** Two states of pass 2 that differ at most in the flag [lastLine]. *)
Definition agree (st st' : LineState Q) : Prop :=
  with_lastLine false st = with_lastLine false st'.

(** The range of a 32-bit integer. *)
Definition int32_range (z : Z) : Prop := (- 2 ^ 31 <= z < 2 ^ 31)%Z.

(** The number truncated by [captionHeight] in [captionImage]. *)
Definition captionImage_extent (heights : list Z) : Z :=
  (Gd.totalLineHeight 19 heights
   + (Z.of_nat (List.length heights) - 1) * 2 + 24)%Z.

(** *** Sums without rounding error *)

(** The heights of the lines, added up exactly. *)
Definition sum_heights {num : Type} {arith : JsNumber num}
    {math : JsMath num} (lines : list (Line num)) : Q :=
  fold_right (fun line acc => n_val (l_height line) + acc) 0 lines.

(** The number [captionHeight] rounds up was computed without rounding
    error: its value is the sum of the heights, of the line spacings
    between the lines and of the margin.  This holds of every input in
    exact arithmetic, and in binary64 of the inputs whose partial sums are
    binary64 numbers, integers below 2^53 among them. *)
Definition unrounded {num : Type} {arith : JsNumber num} {math : JsMath num}
    (lineSpacing captionMarginTop : num) (lines : list (Line num)) : Prop :=
  n_val (captionExtent lineSpacing captionMarginTop lines)
  == sum_heights lines + length_minus_1 lines * n_val lineSpacing
     + n_val captionMarginTop.

(** The same for the gd backend. *)
Definition gd_unrounded {num : Type} {arith : JsNumber num}
    {math : JsMath num} (minLineHeight : Z) (lineSpacing captionMargin : num)
    (heights : list Z) : Prop :=
  n_val (Gd.captionExtent minLineHeight lineSpacing captionMargin heights)
  == inject_Z (Gd.totalLineHeight minLineHeight heights)
     + length_minus_1 heights * n_val lineSpacing + n_val captionMargin.

(* ------------------------------------------------------------------ *)
(** ** Sample inputs *)

Definition word (s : string) (w : Z) : MeasuredWord Q :=
  {| text := lit s; width := inject_Z w |}.

Definition word64 (s : string) (w : Z) : MeasuredWord PrimFloat.float :=
  {| text := lit s; width := float_of_Z w |}.

(** The six words of the example of the specification. *)
Definition six_words : list (MeasuredWord Q) :=
  [word "one" 40; word "two" 40; word "three" 40;
   word "four" 40; word "five" 40; word "six" 40].

(** Seven words with integer widths, for [spaceWidth = 2] and
    [maxTextWidth = 33]; no word is wider than [maxTextWidth]. *)
Definition seven_widths : list (string * Z) :=
  [("a", 21); ("b", 21); ("c", 12); ("d", 22); ("e", 13); ("f", 27);
   ("g", 4)]%string%Z.

Definition seven_words : list (MeasuredWord Q) :=
  map (fun p => word (fst p) (snd p)) seven_widths.

Definition seven_words64 : list (MeasuredWord PrimFloat.float) :=
  map (fun p => word64 (fst p) (snd p)) seven_widths.

(** Four words of width 40. *)
Definition four_words : list (MeasuredWord Q) :=
  [word "a" 40; word "b" 40; word "c" 40; word "d" 40].

(** A word of no width (U+200B ZERO WIDTH SPACE, which [\s] does not
    match) before two ordinary words. *)
Definition zero_width_first : list (MeasuredWord Q) :=
  [{| text := [8203%N]; width := 0 |}; word "aaa" 100; word "bbb" 30].

Definition zero_width_first64 : list (MeasuredWord PrimFloat.float) :=
  [{| text := [8203%N]; width := float_of_Z 0 |};
   word64 "aaa" 100; word64 "bbb" 30].

(** One word wider than a column of 150. *)
Definition overwide : MeasuredWord Q := word "Llanfairpwllgwyngyll" 400.

(** The binary64 number a decimal literal stands for. *)
Definition decimal64 (q : Q) : PrimFloat.float := n_lit q.

(** A measured line of a given height. *)
Definition line_of_height {num : Type} {arith : JsNumber num} (h : num)
  : Line num :=
  {| l_text := lit "x"; l_width := n_of_count 100; l_height := h |}.



(* ------------------------------------------------------------------ *)
(** ** bot.js: the caption text made from a tweet *)

Module Bot.

Definition LEFT_QUOTE : jsstring := [8220%N].
Definition RIGHT_QUOTE : jsstring := [8221%N].

(** [String.prototype.trim] removes the white space of [\s] at both ends. *)
Fixpoint trimStart (s : jsstring) : jsstring :=
  match s with
  | [] => []
  | c :: r => if is_white_space c then trimStart r else s
  end.

Definition trimEnd (s : jsstring) : jsstring := rev (trimStart (rev s)).

Definition trim (s : jsstring) : jsstring := trimEnd (trimStart s).

(** Comparison under the flag [i]: the pattern only has ASCII characters,
    which only ASCII letters of the other case can match. *)
Definition fold_case (c : code_unit) : code_unit :=
  if ((97 <=? c) && (c <=? 122))%N then (c - 32)%N else c.

Fixpoint starts_with_ci (pattern s : jsstring) : bool :=
  match pattern, s with
  | [], _ => true
  | _ :: _, [] => false
  | p :: ps, c :: cs =>
      (fold_case c =? fold_case p)%N && starts_with_ci ps cs
  end.

(** [word.match(/^https?:\/\//i)]. *)
Definition is_url (word : jsstring) : bool :=
  starts_with_ci (lit "http://") word || starts_with_ci (lit "https://") word.

(** The loop removing trailing URLs: each round pops the last word when it
    is a URL and stops otherwise; [fuel] bounds the rounds. *)
Fixpoint popTrailingUrls (fuel : nat) (splitTweet : list jsstring)
  : list jsstring :=
  match fuel with
  | O => splitTweet
  | S fuel' =>
      match splitTweet with
      | [] => splitTweet
      | _ :: _ =>
          let word := last splitTweet [] in
          if is_url word
          then popTrailingUrls fuel' (removelast splitTweet)
          else splitTweet
      end
  end.

(** One round for each word is enough (see [popTrailingUrls_stops]). *)
Definition removeTrailingUrls (splitTweet : list jsstring) : list jsstring :=
  popTrailingUrls (List.length splitTweet) splitTweet.

(** [quotedText] of [captionAndReplyTo]. *)
Definition quotedText (tweetText : jsstring) : jsstring :=
  let splitTweet := removeTrailingUrls (split_ws (trim tweetText)) in
  LEFT_QUOTE ++ join SPACE splitTweet ++ RIGHT_QUOTE.

(** [tweetText] of [handleTweet], the earlier copy. *)
Definition handleTweet_tweetText (text : jsstring) : jsstring :=
  LEFT_QUOTE ++ trim text ++ RIGHT_QUOTE.

End Bot.

(** A string that neither starts nor ends with white space, and is not
    empty. *)
Definition tight (s : jsstring) : Prop :=
  s <> [] /\ is_white_space (hd 32%N s) = false
  /\ is_white_space (last s 32%N) = false.

(** A word as the balancer expects it: not empty, without white space. *)
Definition token (w : jsstring) : Prop :=
  nonempty w = true /\ ws_free w = true.

(** An in-order breaking of [words] into lines: the lines are non-empty
    groups of consecutive words, and a line of two or more words fits in
    [maxTextWidth]. *)
Definition breaking (spaceWidth maxTextWidth : Q)
    (words : list (MeasuredWord Q)) (gs : list (list (MeasuredWord Q)))
  : Prop :=
  concat gs = words
  /\ Forall (fun grp => grp <> []) gs
  /\ Forall (line_fits spaceWidth maxTextWidth) gs.

(* ------------------------------------------------------------------ *)
(** ** Reading the layout *)

(** Rectangles given by their top and height lie one under the other,
    in order and without overlap, between [top] and [bottom]. *)
Fixpoint stacked_within (top bottom : Q) (rects : list (Q * Q)) : Prop :=
  match rects with
  | [] => top <= bottom
  | (y, h) :: rest => top <= y /\ stacked_within (y + h) bottom rest
  end.

(** The top and the height of each line drawn. *)
Definition line_rects (lines : list (Line Q))
    (positions : list (jsstring * Q * Q)) : list (Q * Q) :=
  map (fun lp => (snd (snd lp), l_height (fst lp))) (combine lines positions).

(** [_caption] of the copy with square adjustment, for integer options:
    the canvas as created, as resized, and where the image is drawn
    ([x|0], [y|0]). *)
Module SquareLayout.

Definition createCanvas (comicWidth comicHeight outerPadding : Z)
  : SquareCanvas.CanvasSize :=
  {| SquareCanvas.canvas_width := comicWidth + 2 * outerPadding;
     SquareCanvas.canvas_height := comicHeight + 2 * outerPadding |}.

Definition finalCanvas {num : Type} {arith : JsNumber num}
    {math : JsMath num} (comicWidth comicHeight outerPadding : Z)
    (lineSpacing captionMarginTop : num) (lines : list (Line num))
  : SquareCanvas.CanvasSize :=
  SquareCanvas.resize (createCanvas comicWidth comicHeight outerPadding)
                      lineSpacing captionMarginTop lines.

(** [((canvas.width - comicWidth) / 2)|0]. *)
Definition imageX (canvas : SquareCanvas.CanvasSize) (comicWidth : Z) : Z :=
  to_int32 ((inject_Z (SquareCanvas.canvas_width canvas)
             - inject_Z comicWidth) / 2).

(** [((canvas.width - line.width) / 2)|0]. *)
Definition textX {num : Type} {arith : JsNumber num} {math : JsMath num}
    (canvas : SquareCanvas.CanvasSize) (line : Line num) : Z :=
  n_int32 (n_div (n_sub (n_of_Z (SquareCanvas.canvas_width canvas))
                        (l_width line))
                 (n_of_count 2)).

End SquareLayout.

(* ------------------------------------------------------------------ *)
(** ** Fetching a comic and registering the font *)

Module Fetch.

Inductive Thrown :=
| TryAgain
| ReferenceError (name : string)
| OtherError (code : nat).

Inductive Outcome (A : Type) :=
| Returned (a : A)
| Threw (e : Thrown).
Arguments Threw {A} e.

(** The bindings a function can see, with their values. *)
Definition Scope := list (string * Z).

Fixpoint lookup (name : string) (scope : Scope) : option Z :=
  match scope with
  | [] => None
  | (n, v) :: rest => if String.eqb n name then Some v else lookup name rest
  end.

Fixpoint assign (name : string) (value : Z) (scope : Scope) : Scope :=
  match scope with
  | [] => []
  | (n, v) :: rest =>
      if String.eqb n name then (n, value) :: rest
      else (n, v) :: assign name value rest
  end.

(** [++name]: reading a name that has no binding throws. *)
Definition prefix_increment (name : string) (scope : Scope) : Outcome Scope :=
  match lookup name scope with
  | None => Threw (ReferenceError name)
  | Some v => Returned (assign name (v + 1) scope)
  end.

(** [const MAX_RETRIES = 10; ... let count = 0].  No binding named
    [retries] exists in the method, the module or the global object. *)
Definition fetchRandomComicImage_scope : Scope :=
  [("MAX_RETRIES", 10%Z); ("count", 0%Z)]%string.

(** The loop of [fetchRandomComicImage] in the class [YorkerBot]:
    [for (...; count < MAX_RETRIES; ++retries) try/catch].
    [tryFetchComic n] is the outcome of the call number [n]; the result is
    the outcome of the method ([None] for [undefined]) and the number of
    calls made.  [fuel] bounds the rounds. *)
Fixpoint fetchRandomComicImage_loop (A : Type) (fuel : nat)
    (tryFetchComic : nat -> Outcome A) (calls : nat) (scope : Scope)
  : option (Outcome (option A) * nat) :=
  match fuel with
  | O => None
  | S fuel' =>
      match lookup "count" scope, lookup "MAX_RETRIES" scope with
      | Some count, Some MAX_RETRIES =>
          if (count <? MAX_RETRIES)%Z then
            match tryFetchComic calls with
            | Returned comic => Some (Returned (Some comic), S calls)
            | Threw TryAgain =>
                (* logged; then the update expression *)
                match prefix_increment "retries" scope with
                | Returned scope' =>
                    fetchRandomComicImage_loop fuel' tryFetchComic (S calls)
                                               scope'
                | Threw e => Some (Threw e, S calls)
                end
            | Threw e => Some (Threw e, S calls)
            end
          else Some (Returned None, calls)
      | None, _ => Some (Threw (ReferenceError "count"), calls)
      | _, None => Some (Threw (ReferenceError "MAX_RETRIES"), calls)
      end
  end.

Definition fetchRandomComicImage (A : Type) (fuel : nat)
    (tryFetchComic : nat -> Outcome A)
  : option (Outcome (option A) * nat) :=
  fetchRandomComicImage_loop fuel tryFetchComic 0
                             fetchRandomComicImage_scope.

(** [registerFonts]: the closure over [hasRegistered].  A call returns the
    calls of [registerFont] it makes and the new value of the flag. *)
Inductive Effect := RegisterFont.

Definition registerFonts (hasRegistered : bool) : list Effect * bool :=
  if negb hasRegistered then ([RegisterFont], true) else ([], hasRegistered).

(** [n] calls of [caption], each of which starts with [registerFonts()]. *)
Fixpoint registerFonts_calls (n : nat) (hasRegistered : bool)
  : list Effect * bool :=
  match n with
  | O => ([], hasRegistered)
  | S n' =>
      let '(effects, flag) := registerFonts hasRegistered in
      let '(effects', flag') := registerFonts_calls n' flag in
      (effects ++ effects', flag')
  end.

End Fetch.

(* ================================================================== *)
(** * Properties *)

#[export] Instance exact_laws : JsNumberLaws Q.
Proof. constructor. reflexivity. Qed.

#[export] Instance binary64_laws : JsNumberLaws PrimFloat.float.
Proof. constructor. reflexivity. Qed.

(** ** Strings *)

Lemma join_cons (sep x : jsstring) (l : list jsstring) :
  l <> [] -> join sep (x :: l) = x ++ sep ++ join sep l.
Proof. destruct l; [congruence | reflexivity]. Qed.

Lemma join_app (sep : jsstring) (l1 l2 : list jsstring) :
  l1 <> [] -> l2 <> [] ->
  join sep (l1 ++ l2) = join sep l1 ++ sep ++ join sep l2.
Proof.
  intros H1 H2. induction l1 as [|x l1 IH]; [congruence|].
  destruct l1 as [|y l1].
  - simpl app. now rewrite join_cons.
  - change ((x :: y :: l1) ++ l2) with (x :: ((y :: l1) ++ l2)).
    rewrite join_cons by discriminate.
    rewrite IH by discriminate.
    rewrite (join_cons sep x (l:=y :: l1)) by discriminate.
    now rewrite <- !app_assoc.
Qed.

Lemma join_snoc (sep x : jsstring) (l : list jsstring) :
  l <> [] -> join sep (l ++ [x]) = join sep l ++ sep ++ x.
Proof. intros Hl. now rewrite join_app by (assumption || discriminate). Qed.

Lemma concat_nonempty (A : Type) (g : list A) (gs : list (list A)) :
  g <> [] -> concat (g :: gs) <> [].
Proof. destruct g; simpl; congruence. Qed.

(** Joining the joined lines is joining all the words. *)
Lemma join_concat (sep : jsstring) (gs : list (list jsstring)) :
  Forall (fun g => g <> []) gs ->
  join sep (map (join sep) gs) = join sep (concat gs).
Proof.
  induction 1 as [|g gs Hg Hgs IH]; [reflexivity|].
  destruct gs as [|g' gs].
  - simpl. now rewrite app_nil_r.
  - change (map (join sep) (g :: g' :: gs))
      with (join sep g :: map (join sep) (g' :: gs)).
    rewrite join_cons by discriminate.
    rewrite IH.
    change (concat (g :: g' :: gs)) with (g ++ concat (g' :: gs)).
    rewrite join_app; [reflexivity | assumption |].
    apply concat_nonempty. now inversion Hgs.
Qed.

Lemma split_from_nonempty (s : jsstring) :
  forall b tok, split_from b tok s <> [].
Proof.
  induction s as [|c r IH]; intros b tok; simpl; [discriminate|].
  destruct (is_white_space c); [destruct b|]; auto; discriminate.
Qed.

(** Reading a piece without white space. *)
Lemma split_from_piece (t : jsstring) :
  ws_free t = true ->
  forall b tok rest,
    split_from b tok (t ++ rest) =
    match t with
    | [] => split_from b tok rest
    | _ => split_from false (tok ++ t) rest
    end.
Proof.
  induction t as [|c t IH]; intros Hfree b tok rest; [reflexivity|].
  simpl in Hfree. apply andb_prop in Hfree as [Hc Ht].
  apply negb_true_iff in Hc.
  simpl. rewrite Hc. rewrite (IH Ht).
  destruct t; [reflexivity|]. now rewrite <- app_assoc.
Qed.

Lemma split_from_space (tok rest : jsstring) :
  split_from false tok (SPACE ++ rest) = tok :: split_from true [] rest.
Proof. reflexivity. Qed.

Lemma split_after_gap (l : list jsstring) :
  inner_pieces l = true -> split_from true [] (join SPACE l) = l.
Proof.
  induction l as [|y l IH]; [discriminate|].
  destruct l as [|z l].
  - simpl. intros Hy.
    rewrite <- (app_nil_r y) at 1. rewrite (@split_from_piece y Hy).
    destruct y; reflexivity.
  - intros H.
    change (inner_pieces (y :: z :: l))
      with (ws_free y && nonempty y && inner_pieces (z :: l)) in H.
    apply andb_prop in H as [H Hrest]. apply andb_prop in H as [Hy Hne].
    rewrite join_cons by discriminate.
    rewrite (@split_from_piece y Hy).
    destruct y as [|c y]; [discriminate|].
    rewrite split_from_space. now rewrite (IH Hrest).
Qed.

(** Splitting the joined pieces gives the pieces back. *)
Lemma split_join (l : list jsstring) :
  pieces l = true -> split_ws (join SPACE l) = l.
Proof.
  destruct l as [|x l]; [discriminate|].
  destruct l as [|y l].
  - simpl. intros Hx. unfold split_ws.
    rewrite <- (app_nil_r x) at 1. rewrite (@split_from_piece x Hx).
    destruct x; reflexivity.
  - intros H.
    change (pieces (x :: y :: l))
      with (ws_free x && inner_pieces (y :: l)) in H.
    apply andb_prop in H as [Hx Hrest].
    rewrite join_cons by discriminate. unfold split_ws.
    rewrite (@split_from_piece x Hx).
    destruct x as [|c x]; rewrite split_from_space;
      now rewrite (split_after_gap _ Hrest).
Qed.

Lemma ws_free_snoc (tok : jsstring) (c : code_unit) :
  ws_free tok = true -> is_white_space c = false ->
  ws_free (tok ++ [c]) = true.
Proof.
  intros Ht Hc. unfold ws_free. rewrite forallb_app. fold (ws_free tok).
  rewrite Ht. simpl. now rewrite Hc.
Qed.

Lemma nonempty_snoc (tok : jsstring) (c : code_unit) :
  nonempty (tok ++ [c]) = true.
Proof. destruct tok; reflexivity. Qed.

Lemma inner_pieces_cons (x : jsstring) (l : list jsstring) :
  l <> [] -> ws_free x = true -> nonempty x = true ->
  inner_pieces l = true -> inner_pieces (x :: l) = true.
Proof.
  destruct l; [congruence|]. intros _ Hx Hn Hl.
  change (ws_free x && nonempty x && inner_pieces (j :: l) = true).
  now rewrite Hx, Hn, Hl.
Qed.

Lemma split_from_inner (s : jsstring) :
  (forall tok, ws_free tok = true -> nonempty tok = true ->
               inner_pieces (split_from false tok s) = true)
  /\ inner_pieces (split_from true [] s) = true.
Proof.
  induction s as [|c r [IHtok IHgap]]; split.
  - intros tok Ht _. exact Ht.
  - reflexivity.
  - intros tok Ht Hn. simpl. destruct (is_white_space c) eqn:Hc.
    + apply inner_pieces_cons; auto using split_from_nonempty.
    + apply IHtok; auto using ws_free_snoc, nonempty_snoc.
  - simpl. destruct (is_white_space c) eqn:Hc; [assumption|].
    apply IHtok; [simpl; now rewrite Hc | reflexivity].
Qed.

Lemma inner_pieces_pieces (l : list jsstring) :
  inner_pieces l = true -> pieces l = true.
Proof.
  destruct l as [|x [|y l]]; auto.
  change (ws_free x && nonempty x && inner_pieces (y :: l) = true
          -> ws_free x && inner_pieces (y :: l) = true).
  intros H. apply andb_prop in H as [H Hl]. apply andb_prop in H as [Hx _].
  now rewrite Hx, Hl.
Qed.

(** What [split(/\s+/)] returns always has the shape [pieces]; it is never
    the empty array. *)
Lemma split_ws_pieces (s : jsstring) : pieces (split_ws s) = true.
Proof.
  unfold split_ws. destruct s as [|c r]; [reflexivity|].
  simpl. destruct (is_white_space c) eqn:Hc.
  - pose proof (split_from_nonempty r true []) as Hne.
    pose proof (proj2 (split_from_inner r)) as Hin.
    destruct (split_from true [] r); [congruence|]. exact Hin.
  - apply inner_pieces_pieces.
    apply (proj1 (split_from_inner r)); [simpl; now rewrite Hc | reflexivity].
Qed.

Lemma split_ws_nonempty (s : jsstring) : split_ws s <> [].
Proof. apply split_from_nonempty. Qed.

(** ** Pass 2: the lines and the words they hold *)

Section BalancerFacts.

Context {num : Type} {arith : JsNumber num} {laws : JsNumberLaws num}.

Variables (spaceWidth : num) (linesNeeded : nat)
          (avgLineWidth maxTextWidth : num).

Local Abbreviation step :=
  (createBalancedLines_step spaceWidth linesNeeded avgLineWidth maxTextWidth).
Local Abbreviation gstep := (groups_step spaceWidth maxTextWidth).

(** The loop body, read through [closes]. *)
Lemma step_lines (st : LineState num) (word : MeasuredWord num) :
  lines (step st word) =
  if closes spaceWidth maxTextWidth st word
  then lines st ++ [join SPACE (lineWords st)]
  else lines st.
Proof.
  unfold createBalancedLines_step, closes, hardLimit, softLimit.
  destruct (n_eqb (lineWidth st) n_zero); simpl; [reflexivity|].
  match goal with |- context [if ?c then _ else _] => destruct c end;
    reflexivity.
Qed.

Lemma step_lineWords (st : LineState num) (word : MeasuredWord num) :
  lineWords (step st word) =
  if closes spaceWidth maxTextWidth st word
  then [text word]
  else lineWords st ++ [text word].
Proof.
  unfold createBalancedLines_step, closes, hardLimit, softLimit.
  destruct (n_eqb (lineWidth st) n_zero); simpl; [reflexivity|].
  match goal with |- context [if ?c then _ else _] => destruct c end;
    reflexivity.
Qed.

Lemma step_lastLine (st : LineState num) (word : MeasuredWord num) :
  lastLine (step st word) =
  if closes spaceWidth maxTextWidth st word
  then Nat.eqb (S (List.length (lines st))) linesNeeded
  else lastLine st.
Proof.
  unfold createBalancedLines_step, closes, hardLimit, softLimit.
  destruct (n_eqb (lineWidth st) n_zero); simpl; [reflexivity|].
  match goal with |- context [if ?c then _ else _] => destruct c end;
    simpl; [|reflexivity].
  rewrite length_app, Nat.add_comm. reflexivity.
Qed.

Lemma closes_nonzero (st : LineState num) (word : MeasuredWord num) :
  closes spaceWidth maxTextWidth st word = true ->
  n_eqb (lineWidth st) n_zero = false.
Proof.
  unfold closes. intros H. apply andb_prop in H as [H _].
  now apply negb_true_iff in H.
Qed.

(** [trace] follows the loop. *)
Lemma trace_fst (words : list (MeasuredWord num)) :
  forall st g,
    fst (trace spaceWidth linesNeeded avgLineWidth maxTextWidth st g words)
    = fold_left step words st.
Proof.
  induction words as [|word rest IH]; intros st g; [reflexivity|].
  simpl. apply IH.
Qed.


Lemma tracks_init :
  Tracks [] (createBalancedLines_init linesNeeded avgLineWidth)
         {| closed := []; current := [] |}.
Proof. constructor; simpl; auto. Qed.

Lemma tracks_step (seen : list (MeasuredWord num))
    (st : LineState num) (g : Groups num) (word : MeasuredWord num) :
  Tracks seen st g ->
  Tracks (seen ++ [word]) (step st word) (gstep st g word).
Proof.
  intros [Hl Hw Hs Hc He]. unfold groups_step.
  constructor; rewrite ?step_lines, ?step_lineWords;
    destruct (closes spaceWidth maxTextWidth st word) eqn:Hcl; simpl.
  - rewrite map_app, Hl, Hw. reflexivity.
  - exact Hl.
  - reflexivity.
  - rewrite map_app, Hw. reflexivity.
  - rewrite concat_app. simpl. rewrite app_nil_r, <- app_assoc.
    now rewrite app_assoc, Hs.
  - now rewrite app_assoc, Hs.
  - apply Forall_app. split; [assumption|]. constructor; [|constructor].
    intros Hcur. apply closes_nonzero in Hcl.
    rewrite (He Hcur), zero_eqb_zero in Hcl. discriminate.
  - assumption.
  - discriminate.
  - intros Hnil. now apply app_eq_nil in Hnil as [_ Hnil].
Qed.

Lemma tracks_trace (words : list (MeasuredWord num)) :
  forall seen st g,
    Tracks seen st g ->
    Tracks (seen ++ words)
           (fst (trace spaceWidth linesNeeded avgLineWidth maxTextWidth
                       st g words))
           (snd (trace spaceWidth linesNeeded avgLineWidth maxTextWidth
                       st g words)).
Proof.
  induction words as [|word rest IH]; intros seen st g Htr.
  - now rewrite app_nil_r.
  - simpl. replace (seen ++ word :: rest) with ((seen ++ [word]) ++ rest)
      by now rewrite <- app_assoc.
    apply IH. now apply tracks_step.
Qed.

Lemma tracks_flush (seen : list (MeasuredWord num))
    (st : LineState num) (g : Groups num) :
  Tracks seen st g ->
  flush st = map render (all_groups g)
  /\ concat (all_groups g) = seen
  /\ Forall (fun grp => grp <> []) (all_groups g).
Proof.
  intros [Hl Hw Hs Hc _]. unfold flush, all_groups. rewrite Hw, Hl.
  destruct (current g) as [|word cur] eqn:Hcur; simpl.
  - rewrite app_nil_r in Hs. auto.
  - repeat split.
    + now rewrite map_app.
    + rewrite concat_app. simpl. now rewrite app_nil_r.
    + apply Forall_app. split; [assumption|].
      constructor; [discriminate | constructor].
Qed.

(** Every line is the join of a non-empty group of consecutive words, and
    the groups, in order, make up the word sequence. *)
Lemma createBalancedLines_groups (words : list (MeasuredWord num)) :
  let gs := line_groups words spaceWidth linesNeeded avgLineWidth
                        maxTextWidth in
  createBalancedLines words spaceWidth linesNeeded avgLineWidth maxTextWidth
  = map render gs
  /\ concat gs = words
  /\ Forall (fun grp => grp <> []) gs.
Proof.
  unfold createBalancedLines, createBalancedLines_loop, line_groups.
  rewrite <- (trace_fst words _ {| closed := []; current := [] |}).
  apply (tracks_flush (seen := words)).
  apply (tracks_trace words tracks_init).
Qed.

Lemma join_lines_is_join_words (words : list (MeasuredWord num)) :
  join SPACE (createBalancedLines words spaceWidth linesNeeded avgLineWidth
                                  maxTextWidth)
  = join SPACE (map (@text num) words).
Proof.
  destruct (createBalancedLines_groups words) as (Hlines & Hcat & Hne).
  rewrite Hlines. unfold render.
  rewrite <- (map_map (map (@text num)) (join SPACE)).
  rewrite join_concat.
  - now rewrite <- concat_map, Hcat.
  - apply Forall_map. eapply Forall_impl; [|exact Hne].
    intros grp Hgrp. destruct grp; simpl; congruence.
Qed.

End BalancerFacts.

(** C1. For every non-empty sequence of measured words (the pieces of a
    caption split on white space), [createBalancedLines] returns a non-empty
    sequence of lines; joining the lines with single spaces and splitting
    again on white space gives back the word texts in their order.  Each
    line is the join of a non-empty group of consecutive words and the
    groups make up the word sequence, so that every word is in exactly one
    line.  This holds whatever [linesNeeded] and [avgLineWidth] are, and in
    every arithmetic (exact or binary64). *)
Theorem createBalancedLines_keeps_words :
  forall (num : Type) (arith : JsNumber num) (laws : JsNumberLaws num)
         (words : list (MeasuredWord num)) (spaceWidth : num)
         (linesNeeded : nat) (avgLineWidth maxTextWidth : num),
    words <> [] ->
    pieces (map (@text num) words) = true ->
    let result := createBalancedLines words spaceWidth linesNeeded
                                      avgLineWidth maxTextWidth in
    let gs := line_groups words spaceWidth linesNeeded avgLineWidth
                          maxTextWidth in
    result <> []
    /\ split_ws (join SPACE result) = map (@text num) words
    /\ result = map render gs
    /\ concat gs = words
    /\ Forall (fun grp => grp <> []) gs.
Proof.
  intros num arith laws words sp n avg mx Hne Hpieces result gs.
  destruct (createBalancedLines_groups sp n avg mx words)
    as (Hlines & Hcat & Hgs).
  fold gs in Hlines, Hcat, Hgs. fold result in Hlines.
  repeat split; auto.
  - rewrite Hlines. intros Hnil. apply map_eq_nil in Hnil.
    rewrite Hnil in Hcat. simpl in Hcat. congruence.
  - unfold result. rewrite join_lines_is_join_words.
    now apply split_join.
Qed.

Lemma createBalancedLines_keeps_words_witness :
  six_words <> []
  /\ pieces (map (@text Q) six_words) = true
  /\ split_ws (join SPACE (createBalancedLines six_words 10 2 140 150))
     = map (@text Q) six_words.
Proof.
  assert (Hne : six_words <> []) by discriminate.
  assert (Hp : pieces (map (@text Q) six_words) = true) by reflexivity.
  split; [exact Hne | split; [exact Hp|]].
  exact (proj1 (proj2 (createBalancedLines_keeps_words
                         exact_laws 10 2 140 150 Hne Hp))).
Defined.

(** The words [_caption] measures always meet the assumptions above: for
    every caption and every measure the lines, joined and split again, are
    the pieces of the caption. *)
Lemma measureWords_texts (num : Type)
    (measureText : jsstring -> Canvas.TextMetrics num) (caption : jsstring) :
  map (@text num) (Canvas.measureWords measureText caption)
  = split_ws caption.
Proof.
  unfold Canvas.measureWords. rewrite map_map. simpl. apply map_id.
Qed.

Lemma caption_lines_round_trip (num : Type) (arith : JsNumber num)
    (laws : JsNumberLaws num)
    (measureText : jsstring -> Canvas.TextMetrics num) (caption : jsstring)
    (spaceWidth : num) (linesNeeded : nat)
    (avgLineWidth maxTextWidth : num) :
  let words := Canvas.measureWords measureText caption in
  let result := createBalancedLines words spaceWidth linesNeeded avgLineWidth
                                    maxTextWidth in
  words <> []
  /\ result <> []
  /\ split_ws (join SPACE result) = split_ws caption.
Proof.
  intros words result.
  assert (Htexts := measureWords_texts measureText caption).
  fold words in Htexts.
  assert (Hne : words <> []).
  { intros E. rewrite E in Htexts. symmetry in Htexts.
    now apply split_ws_nonempty in Htexts. }
  destruct (createBalancedLines_groups spaceWidth linesNeeded avgLineWidth
                                       maxTextWidth words)
    as (Hlines & Hcat & _).
  fold result in Hlines.
  split; [exact Hne | split].
  - rewrite Hlines. intros E. apply map_eq_nil in E. rewrite E in Hcat.
    simpl in Hcat. congruence.
  - unfold result. rewrite join_lines_is_join_words, Htexts.
    apply split_join, split_ws_pieces.
Qed.

(** ** Pass 1: the line count *)

Section Pass1Facts.

Context {num : Type} {arith : JsNumber num}.

Variables (spaceWidth maxTextWidth : num).

Local Abbreviation step1 := (calcAvgLineWidth_step spaceWidth maxTextWidth).

Lemma step1_linesNeeded (st : AvgState num) (word : MeasuredWord num) :
  (a_linesNeeded st <= a_linesNeeded (step1 st word))%nat.
Proof.
  unfold calcAvgLineWidth_step.
  destruct (negb (n_eqb (a_lineWidth st) n_zero));
    [destruct (n_leb _ maxTextWidth)|]; simpl; lia.
Qed.

Lemma loop1_linesNeeded (words : list (MeasuredWord num)) :
  forall st, (a_linesNeeded st <= a_linesNeeded (fold_left step1 words st))%nat.
Proof.
  induction words as [|word rest IH]; intros st; simpl; [lia|].
  etransitivity; [apply (step1_linesNeeded st word) | apply IH].
Qed.

(** [linesNeeded] starts at 1 and is only ever incremented. *)
Lemma calcAvgLineWidth_linesNeeded_positive
    (words : list (MeasuredWord num)) :
  (1 <= fst (calcAvgLineWidth words spaceWidth maxTextWidth))%nat.
Proof.
  unfold calcAvgLineWidth, calcAvgLineWidth_loop. simpl.
  apply (loop1_linesNeeded words calcAvgLineWidth_init).
Qed.

(** Pass 1 adds the whole width of the word, with or without a space,
    whatever [maxTextWidth] is. *)
Lemma step1_adds_width (st : AvgState num) (word : MeasuredWord num) :
  a_totalTextWidth (step1 st word)
  = n_add (a_totalTextWidth st) (width word)
  \/ a_totalTextWidth (step1 st word)
     = n_add (a_totalTextWidth st) (n_add (width word) spaceWidth).
Proof.
  unfold calcAvgLineWidth_step.
  destruct (negb (n_eqb (a_lineWidth st) n_zero));
    [destruct (n_leb _ maxTextWidth)|]; simpl; auto.
Qed.

Lemma balance_returns (words : list (MeasuredWord num)) :
  balance words spaceWidth maxTextWidth
  = Normal (createBalancedLines words spaceWidth
              (fst (calcAvgLineWidth words spaceWidth maxTextWidth))
              (snd (calcAvgLineWidth words spaceWidth maxTextWidth))
              maxTextWidth).
Proof.
  unfold balance.
  now destruct (calcAvgLineWidth words spaceWidth maxTextWidth).
Qed.

(** One word: a single line holding it, whatever its width. *)
Lemma balance_one_word {laws : JsNumberLaws num} (word : MeasuredWord num) :
  balance [word] spaceWidth maxTextWidth = Normal [text word]
  /\ fst (calcAvgLineWidth [word] spaceWidth maxTextWidth) = 1%nat
  /\ forall linesNeeded avgLineWidth,
       line_groups [word] spaceWidth linesNeeded avgLineWidth maxTextWidth
       = [[word]].
Proof.
  rewrite balance_returns.
  unfold createBalancedLines, createBalancedLines_loop, line_groups,
    calcAvgLineWidth, calcAvgLineWidth_loop, all_groups, flush.
  cbn [fold_left trace fst snd].
  unfold createBalancedLines_step, calcAvgLineWidth_step, groups_step, closes,
    createBalancedLines_init, calcAvgLineWidth_init.
  cbn [lineWidth a_lineWidth]. rewrite zero_eqb_zero.
  repeat split.
Qed.

End Pass1Facts.

(** C10. For every word sequence, the empty one included,
    [calcAvgLineWidth] returns a [linesNeeded] of at least 1, so the divisor
    of [totalTextWidth / linesNeeded] is never zero; on the empty sequence
    it returns [(1, 0)]. *)
Theorem calcAvgLineWidth_divisor_is_positive :
  forall (num : Type) (arith : JsNumber num)
         (words : list (MeasuredWord num)) (spaceWidth maxTextWidth : num),
    (1 <= fst (calcAvgLineWidth words spaceWidth maxTextWidth))%nat
    /\ (forall (ws : list (MeasuredWord Q)) (sp mx : Q),
          ~ n_of_count (fst (calcAvgLineWidth ws sp mx)) == 0)
    /\ (forall sp mx : Q, calcAvgLineWidth [] sp mx = (1%nat, 0))
    /\ (forall sp mx : PrimFloat.float,
          calcAvgLineWidth [] sp mx = (1%nat, PrimFloat.zero)).
Proof.
  intros num arith words sp mx. split; [|split; [|split]].
  - apply calcAvgLineWidth_linesNeeded_positive.
  - intros ws sp' mx' H0.
    pose proof (calcAvgLineWidth_linesNeeded_positive sp' mx' ws) as Hpos.
    unfold calcAvgLineWidth in *. simpl in H0, Hpos.
    unfold Qeq in H0. simpl in H0. lia.
  - reflexivity.
  - reflexivity.
Qed.

(** C4. A word wider than [maxTextWidth] is placed like any other: pass 1
    adds its whole width, [balance] returns normally, and the word is in one
    of the groups of consecutive words that the lines are the joins of.  A
    sequence of one such word gives exactly one line, that word. *)
Theorem overwide_word_is_placed :
  forall (num : Type) (arith : JsNumber num) (laws : JsNumberLaws num)
         (words : list (MeasuredWord num)) (w : MeasuredWord num)
         (spaceWidth maxTextWidth : num),
    In w words ->
    n_gtb (width w) maxTextWidth = true ->
    (forall st,
        let st' := calcAvgLineWidth_step spaceWidth maxTextWidth st w in
        a_totalTextWidth st' = n_add (a_totalTextWidth st) (width w)
        \/ a_totalTextWidth st'
           = n_add (a_totalTextWidth st) (n_add (width w) spaceWidth))
    /\ (exists linesNeeded avgLineWidth result,
           calcAvgLineWidth words spaceWidth maxTextWidth
           = (linesNeeded, avgLineWidth)
           /\ balance words spaceWidth maxTextWidth = Normal result
           /\ let gs := line_groups words spaceWidth linesNeeded avgLineWidth
                                    maxTextWidth in
              result = map render gs
              /\ concat gs = words
              /\ exists grp, In grp gs /\ In w grp)
    /\ balance [w] spaceWidth maxTextWidth = Normal [text w]
    /\ (forall linesNeeded avgLineWidth,
           line_groups [w] spaceWidth linesNeeded avgLineWidth maxTextWidth
           = [[w]]).
Proof.
  intros num arith laws words w sp mx Hin Hwide.
  split; [|split; [|split]].
  - intros st. apply step1_adds_width.
  - destruct (calcAvgLineWidth words sp mx) as [n avg] eqn:Hcalc.
    exists n, avg, (createBalancedLines words sp n avg mx).
    split; [reflexivity|]. split.
    + rewrite balance_returns, Hcalc. reflexivity.
    + destruct (createBalancedLines_groups sp n avg mx words)
        as (Hlines & Hcat & _).
      split; [exact Hlines | split; [exact Hcat|]].
      rewrite <- Hcat in Hin. apply in_concat in Hin as (grp & Hgrp & Hw).
      now exists grp.
  - exact (proj1 (balance_one_word sp mx w)).
  - exact (proj2 (proj2 (balance_one_word sp mx w))).
Qed.

Lemma overwide_word_is_placed_witness :
  In overwide [overwide]
  /\ n_gtb (width overwide) 150 = true
  /\ balance [overwide] 10 150 = Normal [lit "Llanfairpwllgwyngyll"].
Proof.
  assert (Hin : In overwide [overwide]) by (left; reflexivity).
  assert (Hwide : n_gtb (width overwide) 150 = true) by reflexivity.
  split; [exact Hin | split; [exact Hwide|]].
  exact (proj1 (proj2 (proj2 (@overwide_word_is_placed
                                Q exact exact_laws [overwide] overwide
                                10 150 Hin Hwide)))).
Defined.

(** C5 as stated fails: on the empty word sequence [balance] returns the
    empty sequence of lines; it does not fail with [InvalidInput]. *)
Lemma balance_empty_is_not_an_error :
  balance (arith := exact) [] 10 150 = Normal []
  /\ balance (arith := exact) [] 10 150 <> Throw InvalidInput.
Proof. split; [reflexivity | discriminate]. Qed.

(** C5, amended.  [balance] never fails.  On the empty word sequence pass 1
    returns [linesNeeded = 1] and pass 2 returns no line.  An empty caption
    is not zero words: [split(/\s+/)] never returns the empty array, it
    gives one empty word, and the result is then one empty line. *)
Theorem balance_never_fails :
  forall (num : Type) (arith : JsNumber num) (laws : JsNumberLaws num)
         (spaceWidth maxTextWidth : num),
    balance [] spaceWidth maxTextWidth = Normal []
    /\ fst (calcAvgLineWidth [] spaceWidth maxTextWidth) = 1%nat
    /\ (forall words e, balance words spaceWidth maxTextWidth <> Throw e)
    /\ (forall caption, split_ws caption <> [])
    /\ split_ws [] = [[]]
    /\ (forall emptyWidth,
           balance [{| text := []; width := emptyWidth |}]
                   spaceWidth maxTextWidth
           = Normal [[]]).
Proof.
  intros num arith laws sp mx. repeat split.
  - intros words e. rewrite balance_returns. discriminate.
  - apply split_ws_nonempty.
  - intros emptyWidth.
    apply (balance_one_word sp mx {| text := []; width := emptyWidth |}).
Qed.

Lemma balance_never_fails_witness :
  balance (arith := exact) [] 10 150 = Normal [].
Proof. exact (proj1 (@balance_never_fails Q exact exact_laws 10 150)). Defined.

(** ** The examples of the specification *)

(** C7. Six words of width 40, [spaceWidth = 10], [maxTextWidth = 150].
    Pass 1 puts the first three words on a line of width 140, the fourth
    would bring it to 190 and starts line 2, and the result is
    [linesNeeded = 2] with an average of 140.  Pass 2 then returns the two
    lines "one two three" and "four five six", each of accumulated width
    140.  The binary64 run gives the same lines. *)
Theorem six_words_example :
  let pass1 := calcAvgLineWidth_step 10 150 in
  let after3 := fold_left pass1 (firstn 3 six_words) calcAvgLineWidth_init in
  let after4 := fold_left pass1 (firstn 4 six_words) calcAvgLineWidth_init in
  (a_linesNeeded after3 = 1%nat
   /\ a_lineWidth after3 == 140
   /\ a_lineWidth after3 <= 150
   /\ a_lineWidth after3 + 10 + 40 == 190
   /\ a_linesNeeded after4 = 2%nat)
  /\ fst (calcAvgLineWidth six_words 10 150) = 2%nat
  /\ snd (calcAvgLineWidth six_words 10 150) == 140
  /\ balance six_words 10 150
     = Normal [lit "one two three"; lit "four five six"]
  /\ line_groups six_words 10 2 140 150
     = [firstn 3 six_words; skipn 3 six_words]
  /\ line_width 10 (firstn 3 six_words) == 140
  /\ line_width 10 (skipn 3 six_words) == 140
  /\ lineWidth (createBalancedLines_loop (firstn 3 six_words) 10 2 140 150)
     == 140
  /\ lineWidth (createBalancedLines_loop six_words 10 2 140 150) == 140
  /\ balance (map (fun w => word64 (fst w) (snd w))
                  [("one", 40); ("two", 40); ("three", 40);
                   ("four", 40); ("five", 40); ("six", 40)]%string%Z)
             (float_of_Z 10) (float_of_Z 150)
     = Normal [lit "one two three"; lit "four five six"].
Proof.
  repeat split; try (vm_compute; reflexivity).
  vm_compute. discriminate.
Qed.

(** C8. [targetImageWidth = 600], image 1200 x 800, [outerPadding = 20],
    [captionMarginTop = 25], one line of height 20: the scaled image height
    is 400, the canvas before the text is 640 x 440, the text block is 45
    high, the final canvas is 640 x 485, the image rectangle is
    (20, 20, 600, 400) and the line is drawn at y = 445, centred at
    x = (640 - width) / 2.  In exact arithmetic this holds whatever the
    line spacing, the side margin and the text and width of the line; in
    binary64 the same numbers come out with the default spacing and side
    margin, for a line 200 wide. *)
Theorem layout_example :
  forall (sides spacing : Q) (text : jsstring) (lineWidth : Q),
    let opts := {| Canvas.captionMarginSides := sides;
                   Canvas.captionMarginTop := 25;
                   Canvas.lineSpacing := spacing;
                   Canvas.outerPadding := 20;
                   Canvas.resizeComicWidth := 600 |} in
    let image := {| Canvas.imageWidth := 1200; Canvas.imageHeight := 800 |} in
    let plan := Canvas.layout opts image
                  [{| l_text := text; l_width := lineWidth; l_height := 20 |}]
    in
    let n := fun z : Z => n_of_Z z : PrimFloat.float in
    let opts64 := {| Canvas.captionMarginSides := n 40%Z;
                     Canvas.captionMarginTop := n 25%Z;
                     Canvas.lineSpacing := n 2%Z;
                     Canvas.outerPadding := n 20%Z;
                     Canvas.resizeComicWidth := n 600%Z |} in
    let image64 := {| Canvas.imageWidth := n 1200%Z;
                      Canvas.imageHeight := n 800%Z |} in
    let plan64 := Canvas.layout opts64 image64
                    [{| l_text := text; l_width := n 200%Z;
                        l_height := n 20%Z |}]
    in
    (Canvas.comicHeight opts image = 400%Z
     /\ Canvas.initialCanvas plan = (640, 440)
     /\ Canvas.captionHeight plan = 45%Z
     /\ Canvas.finalCanvas plan = (640, 485)
     /\ Canvas.imageRect plan = (20, 20, 600, 400)
     /\ Canvas.linePositions plan = [(text, (640 - lineWidth) / 2, 445)])
    /\ (Canvas.comicHeight opts64 image64 = 400%Z
        /\ Canvas.initialCanvas plan64 = (n 640%Z, n 440%Z)
        /\ Canvas.captionHeight plan64 = 45%Z
        /\ Canvas.finalCanvas plan64 = (n 640%Z, n 485%Z)
        /\ Canvas.imageRect plan64 = (n 20%Z, n 20%Z, n 600%Z, n 400%Z)
        /\ Canvas.linePositions plan64 = [(text, n 220%Z, n 445%Z)]).
Proof.
  intros sides spacing text lw opts image plan n opts64 image64 plan64.
  split.
  - assert (Hcap : Canvas.calcCaptionHeight opts
                     [{| l_text := text; l_width := lw; l_height := 20 |}]
                   = 45%Z).
    { unfold Canvas.calcCaptionHeight, n_ceil, captionExtent, totalLineHeight.
      transitivity (Qceiling 45); [apply Qceiling_comp | reflexivity].
      simpl. ring. }
    unfold plan, Canvas.layout.
    cbn [Canvas.initialCanvas Canvas.captionHeight Canvas.finalCanvas
         Canvas.imageRect Canvas.linePositions].
    rewrite Hcap.
    split; [reflexivity|]. split; [reflexivity|].
    split; [reflexivity|]. split; [reflexivity|].
    split; reflexivity.
  - split; [vm_compute; reflexivity|]. split; [vm_compute; reflexivity|].
    split; [vm_compute; reflexivity|]. split; [vm_compute; reflexivity|].
    split; vm_compute; reflexivity.
Qed.

(** ** Square adjustment *)

Lemma inject_Z_zero_iff (z : Z) : Qeq_bool (inject_Z z) 0 = true <-> z = 0%Z.
Proof.
  rewrite Qeq_bool_iff. unfold Qeq. simpl. lia.
Qed.

Lemma inject_Z_nonneg_iff (z : Z) : Qle_bool 0 (inject_Z z) = true <-> (0 <= z)%Z.
Proof.
  rewrite Qle_bool_iff. unfold Qle. simpl. lia.
Qed.

(** The test of the adjustment, in arithmetic: the width is not zero (the
    quotient of a positive height by zero is [Infinity]) and the quotient
    is at most 1.75. *)
Lemma squareAdjust_test (w h : Z) :
  (w <? h)%Z && js_le (js_div (inject_Z h) (inject_Z w)) (175 # 100) = true
  <-> (w < h)%Z /\ w <> 0%Z /\ inject_Z h / inject_Z w <= 175 # 100.
Proof.
  rewrite andb_true_iff, Z.ltb_lt. unfold js_div.
  destruct (Qeq_bool (inject_Z w) 0) eqn:Hw.
  - apply inject_Z_zero_iff in Hw. subst w.
    destruct (Qeq_bool (inject_Z h) 0) eqn:Hh.
    + apply inject_Z_zero_iff in Hh. subst h. simpl. intuition (lia || discriminate).
    + destruct (Qle_bool 0 (inject_Z h)) eqn:Hpos; simpl.
      * intuition (lia || discriminate).
      * split; [intros [Hlt _] | intros [_ [Hne _]]; congruence].
        assert (Qle_bool 0 (inject_Z h) = true)
          by (apply inject_Z_nonneg_iff; lia).
        congruence.
  - assert (Hne : w <> 0%Z).
    { intros ->. rewrite (proj2 (inject_Z_zero_iff 0) eq_refl) in Hw.
      discriminate. }
    simpl. rewrite Qle_bool_iff. intuition.
Qed.

(** C6. The square adjustment never changes the canvas height and never
    decreases its width.  It changes the width only when
    [canvasWidth < canvasHeight] and [canvasHeight / canvasWidth <= 1.75];
    then the new width is the height, a square.  Otherwise the canvas is
    left as it is. *)
Theorem squareAdjust_only_widens_to_square :
  forall canvas : SquareCanvas.CanvasSize,
    let w := SquareCanvas.canvas_width canvas in
    let h := SquareCanvas.canvas_height canvas in
    let canvas' := SquareCanvas.squareAdjust canvas in
    SquareCanvas.canvas_height canvas' = h
    /\ (w <= SquareCanvas.canvas_width canvas')%Z
    /\ (SquareCanvas.canvas_width canvas' <> w ->
        (w < h)%Z /\ w <> 0%Z /\ inject_Z h / inject_Z w <= 175 # 100)
    /\ ((w < h)%Z -> w <> 0%Z -> inject_Z h / inject_Z w <= 175 # 100 ->
        SquareCanvas.canvas_width canvas' = h)
    /\ (~ ((w < h)%Z /\ inject_Z h / inject_Z w <= 175 # 100) ->
        canvas' = canvas).
Proof.
  intros [w h]. cbn zeta. cbn [SquareCanvas.canvas_width
                                 SquareCanvas.canvas_height].
  unfold SquareCanvas.squareAdjust.
  cbn [SquareCanvas.canvas_width SquareCanvas.canvas_height].
  pose proof (squareAdjust_test w h) as Htest.
  destruct ((w <? h)%Z
            && js_le (js_div (inject_Z h) (inject_Z w)) (175 # 100)).
  - destruct (proj1 Htest eq_refl) as (Hlt & Hne & Hratio).
    cbn [SquareCanvas.canvas_width SquareCanvas.canvas_height].
    repeat split; auto; try lia.
    intros Hnot. exfalso. apply Hnot. now split.
  - cbn [SquareCanvas.canvas_width SquareCanvas.canvas_height].
    repeat split; try lia; try congruence.
    intros Hlt Hne Hratio.
    assert (false = true) by (apply Htest; auto). discriminate.
Qed.

Example squareAdjust_640_by_800 :
  SquareCanvas.squareAdjust
    {| SquareCanvas.canvas_width := 640; SquareCanvas.canvas_height := 800 |}
  = {| SquareCanvas.canvas_width := 800; SquareCanvas.canvas_height := 800 |}.
Proof. reflexivity. Qed.

Example squareAdjust_640_by_1200 :
  SquareCanvas.squareAdjust
    {| SquareCanvas.canvas_width := 640; SquareCanvas.canvas_height := 1200 |}
  = {| SquareCanvas.canvas_width := 640; SquareCanvas.canvas_height := 1200 |}.
Proof. reflexivity. Qed.

Example squareAdjust_640_by_485 :
  SquareCanvas.squareAdjust
    {| SquareCanvas.canvas_width := 640; SquareCanvas.canvas_height := 485 |}
  = {| SquareCanvas.canvas_width := 640; SquareCanvas.canvas_height := 485 |}.
Proof. reflexivity. Qed.

(** ** Line widths, in exact arithmetic *)

Lemma step_lineWidth (num : Type) (arith : JsNumber num)
    (spaceWidth : num) (linesNeeded : nat) (avgLineWidth maxTextWidth : num)
    (st : LineState num) (word : MeasuredWord num) :
  lineWidth (createBalancedLines_step spaceWidth linesNeeded avgLineWidth
                                      maxTextWidth st word)
  = if closes spaceWidth maxTextWidth st word
    then n_add n_zero (width word)
    else if n_eqb (lineWidth st) n_zero
         then n_add (lineWidth st) (width word)
         else n_add (lineWidth st) (n_add (width word) spaceWidth).
Proof.
  unfold createBalancedLines_step, closes, hardLimit, softLimit.
  destruct (n_eqb (lineWidth st) n_zero); simpl; [reflexivity|].
  match goal with |- context [if ?c then _ else _] => destruct c end;
    reflexivity.
Qed.

Lemma sum_widths_snoc (g : list (MeasuredWord Q)) (word : MeasuredWord Q) :
  sum_widths (g ++ [word]) == sum_widths g + width word.
Proof.
  induction g as [|x g IH]; simpl; [ring|].
  fold (sum_widths (g ++ [word])). fold (sum_widths g). rewrite IH. ring.
Qed.

Lemma line_width_snoc (spaceWidth : Q) (g : list (MeasuredWord Q))
    (word : MeasuredWord Q) :
  line_width spaceWidth (g ++ [word])
  == line_width spaceWidth g + (width word + spaceWidth).
Proof.
  unfold line_width, length_minus_1. fold (sum_widths (g ++ [word])).
  fold (sum_widths g). rewrite sum_widths_snoc, length_app. simpl List.length.
  rewrite Nat2Z.inj_add, inject_Z_plus. simpl (inject_Z (Z.of_nat 1)). ring.
Qed.

Lemma line_width_one (spaceWidth : Q) (word : MeasuredWord Q) :
  line_width spaceWidth [word] == width word.
Proof. unfold line_width, length_minus_1. simpl. ring. Qed.

Section ExactWidths.

Variables (spaceWidth : Q) (linesNeeded : nat) (avgLineWidth maxTextWidth : Q).

Hypothesis spaceWidth_nonneg : 0 <= spaceWidth.

Local Abbreviation stepQ :=
  (createBalancedLines_step spaceWidth linesNeeded avgLineWidth maxTextWidth).
Local Abbreviation gstepQ := (groups_step spaceWidth maxTextWidth).
Local Abbreviation fits := (line_fits spaceWidth maxTextWidth).
Local Abbreviation Fits := (LinesFit spaceWidth maxTextWidth).


Lemma fits_init :
  Fits (createBalancedLines_init linesNeeded avgLineWidth)
       {| closed := []; current := [] |}.
Proof.
  constructor; simpl; try congruence; auto.
  intros H. simpl in H. lia.
Qed.

Lemma fits_step (st : LineState Q) (g : Groups Q) (word : MeasuredWord Q) :
  0 < width word ->
  Fits st g -> Fits (stepQ st word) (gstepQ st g word).
Proof.
  intros Hpos [He Hw Hp Hc Hcur].
  assert (Hlw := @step_lineWidth Q exact spaceWidth linesNeeded avgLineWidth
                                 maxTextWidth st word).
  unfold groups_step.
  destruct (closes spaceWidth maxTextWidth st word) eqn:Hcl.
  - (* the line is cleared *)
    simpl in Hlw.
    constructor; simpl; try congruence.
    + intros _. rewrite Hlw, line_width_one. ring.
    + intros _. rewrite Hlw. lra.
    + apply Forall_app. split; [assumption | now constructor].
    + intros H. simpl in H. lia.
  - destruct (n_eqb (lineWidth st) n_zero) eqn:Hz; simpl in Hz, Hlw.
    + (* first word of the text *)
      apply Qeq_bool_iff in Hz.
      assert (Hnil : current g = []).
      { destruct (current g) eqn:Hg; [reflexivity|].
        assert (0 < lineWidth st) by (apply Hp; discriminate). lra. }
      rewrite Hnil. simpl app.
      constructor; simpl; try congruence; auto.
      * intros _. rewrite Hlw, line_width_one, Hz. ring.
      * intros _. rewrite Hlw, Hz. lra.
      * intros H. simpl in H. lia.
    + (* the word is appended after a space *)
      assert (Hne : current g <> []).
      { intros Hnil. rewrite (He Hnil) in Hz. discriminate. }
      assert (Hhard : lineWidth st + (width word + spaceWidth)
                      <= maxTextWidth).
      { unfold closes, hardLimit in Hcl. simpl in Hcl. rewrite Hz in Hcl.
        simpl in Hcl. apply orb_false_iff in Hcl as [Hcl _].
        apply negb_false_iff in Hcl. now apply Qle_bool_iff in Hcl. }
      specialize (Hw Hne). specialize (Hp Hne).
      constructor; simpl; auto.
      * intros Hnil. now apply app_eq_nil in Hnil as [Hnil _].
      * intros _. rewrite Hlw, line_width_snoc, Hw. reflexivity.
      * intros _. rewrite Hlw. lra.
      * intros _. rewrite line_width_snoc, <- Hw. exact Hhard.
Qed.

Lemma fits_trace (words : list (MeasuredWord Q)) :
  Forall (fun word => 0 < width word) words ->
  forall st g,
    Fits st g ->
    Fits (fst (trace spaceWidth linesNeeded avgLineWidth maxTextWidth
                     st g words))
         (snd (trace spaceWidth linesNeeded avgLineWidth maxTextWidth
                     st g words)).
Proof.
  induction 1 as [|word rest Hword Hrest IH]; intros st g Hfits;
    [assumption|].
  simpl. apply IH. now apply fits_step.
Qed.

Lemma fits_all_groups (st : LineState Q) (g : Groups Q) :
  Fits st g -> Forall fits (all_groups g).
Proof.
  intros [_ _ _ Hc Hcur]. unfold all_groups.
  destruct (current g) eqn:Hg; [assumption|].
  apply Forall_app. split; [assumption | now constructor].
Qed.

Lemma line_groups_fit (words : list (MeasuredWord Q)) :
  Forall (fun word => 0 < width word) words ->
  Forall fits (line_groups words spaceWidth linesNeeded avgLineWidth
                           maxTextWidth).
Proof.
  intros Hpos. unfold line_groups.
  eapply fits_all_groups. apply (fits_trace Hpos). apply fits_init.
Qed.

End ExactWidths.

(** C3.  The code at an input where a line of two or more words is wider
    than [maxTextWidth].  A word of no width leaves [lineWidth] at 0, which
    the loop takes for an empty line: the next word is then appended
    without the space being counted and without the test against
    [maxTextWidth].  Here pass 1 counts one line of width 140 and pass 2
    returns one line of three words whose widths and two spaces sum to 150,
    above [maxTextWidth = 140]; no word is wider than 140.  All the numbers
    are integers, and binary64 returns the same line. *)
Lemma zero_width_word_line_exceeds :
  (fst (calcAvgLineWidth zero_width_first 10 140) = 1%nat
   /\ snd (calcAvgLineWidth zero_width_first 10 140) == 140
   /\ line_groups zero_width_first 10 1 140 140 = [zero_width_first]
   /\ List.length zero_width_first = 3%nat
   /\ Forall (fun word => width word <= 140) zero_width_first
   /\ line_width 10 zero_width_first == 150
   /\ ~ Forall (fun grp => (2 <= List.length grp)%nat ->
                           line_width 10 grp <= 140)
               (line_groups zero_width_first 10 1 140 140))
  /\ (calcAvgLineWidth zero_width_first64 (float_of_Z 10) (float_of_Z 140)
      = (1%nat, float_of_Z 140)
      /\ balance zero_width_first64 (float_of_Z 10) (float_of_Z 140)
         = Normal [[8203%N] ++ SPACE ++ lit "aaa" ++ SPACE ++ lit "bbb"]
      /\ map (fun word => Qred (float_value (width word))) zero_width_first64
         = map (fun word => Qred (width word)) zero_width_first).
Proof.
  split.
  - repeat split; try (vm_compute; reflexivity).
    + repeat constructor; vm_compute; discriminate.
    + intros H. inversion H as [|grp rest Hgrp _]; subst.
      assert (Hlen : (2 <= List.length zero_width_first)%nat) by (simpl; lia).
      specialize (Hgrp Hlen). vm_compute in Hgrp. now apply Hgrp.
  - split; [vm_compute; reflexivity|]. split; vm_compute; reflexivity.
Qed.

(** In exact arithmetic, when every word has a positive width and the
    space is not negative, the limit is kept: every line of two or more
    words has [sum of widths + (wordCount - 1) * spaceWidth <= maxTextWidth],
    and a line wider than [maxTextWidth] holds a single word, itself wider
    than [maxTextWidth].  The lines are the joins of these groups of
    words. *)
Theorem lines_fit_when_widths_positive :
  forall (words : list (MeasuredWord Q)) (spaceWidth : Q)
         (linesNeeded : nat) (avgLineWidth maxTextWidth : Q),
    Forall (fun word => 0 < width word) words ->
    0 <= spaceWidth ->
    let gs := line_groups words spaceWidth linesNeeded avgLineWidth
                          maxTextWidth in
    createBalancedLines words spaceWidth linesNeeded avgLineWidth
                        maxTextWidth = map render gs
    /\ concat gs = words
    /\ Forall (fun grp => (2 <= List.length grp)%nat ->
                          line_width spaceWidth grp <= maxTextWidth) gs
    /\ Forall (fun grp => maxTextWidth < line_width spaceWidth grp ->
                          exists word, grp = [word]
                                       /\ maxTextWidth < width word) gs.
Proof.
  intros words sp n avg mx Hpos Hsp gs.
  destruct (createBalancedLines_groups sp n avg mx words)
    as (Hlines & Hcat & Hne).
  pose proof (line_groups_fit n avg mx Hsp Hpos) as Hfit.
  fold gs in Hlines, Hcat, Hne, Hfit.
  split; [exact Hlines | split; [exact Hcat | split; [exact Hfit|]]].
  rewrite Forall_forall in *. intros grp Hin Hwide.
  specialize (Hfit grp Hin). specialize (Hne grp Hin). unfold line_fits in Hfit.
  destruct grp as [|word [|word' grp]]; [congruence| |].
  - exists word. split; [reflexivity|].
    now rewrite line_width_one in Hwide.
  - assert (Hlen : (2 <= List.length (word :: word' :: grp))%nat)
      by (simpl; lia).
    specialize (Hfit Hlen). lra.
Qed.

Lemma lines_fit_when_widths_positive_witness :
  Forall (fun word => 0 < width word) six_words
  /\ 0 <= 10
  /\ Forall (fun grp => (2 <= List.length grp)%nat ->
                        line_width 10 grp <= 150)
            (line_groups six_words 10 2 140 150).
Proof.
  assert (Hpos : Forall (fun word : MeasuredWord Q => 0 < width word)
                        six_words)
    by (repeat constructor).
  assert (Hsp : 0 <= 10) by (vm_compute; discriminate).
  split; [exact Hpos | split; [exact Hsp|]].
  exact (proj1 (proj2 (proj2 (@lines_fit_when_widths_positive
                                six_words 10 2 140 150 Hpos Hsp)))).
Defined.

(** ** Canvas height *)

Lemma squareAdjust_height (canvas : SquareCanvas.CanvasSize) :
  SquareCanvas.canvas_height (SquareCanvas.squareAdjust canvas)
  = SquareCanvas.canvas_height canvas.
Proof.
  unfold SquareCanvas.squareAdjust.
  now destruct (_ && _).
Qed.

Section Heights.

Context {num : Type} {arith : JsNumber num} {math : JsMath num}.

Lemma sum_heights_snoc (lines : list (Line num)) (line : Line num) :
  sum_heights (lines ++ [line])
  == sum_heights lines + n_val (l_height line).
Proof.
  induction lines as [|l rest IH]; simpl.
  - ring.
  - fold (sum_heights (rest ++ [line])). fold (sum_heights rest).
    rewrite IH. ring.
Qed.

Lemma sum_heights_nonneg (lines : list (Line num)) :
  Forall (fun line => 0 <= n_val (l_height line)) lines ->
  0 <= sum_heights lines.
Proof.
  induction 1 as [|line rest Hline Hrest IH]; simpl.
  - lra.
  - fold (sum_heights rest). lra.
Qed.

End Heights.

Lemma length_minus_1_snoc (A : Type) (l : list A) (x : A) :
  length_minus_1 (l ++ [x]) == length_minus_1 l + 1.
Proof.
  unfold length_minus_1. rewrite length_app. simpl List.length.
  rewrite Nat2Z.inj_add, inject_Z_plus. simpl (inject_Z (Z.of_nat 1)). ring.
Qed.

Lemma length_minus_1_nonneg (A : Type) (l : list A) :
  l <> [] -> 0 <= length_minus_1 l.
Proof.
  destruct l as [|x l]; [congruence|]. intros _.
  unfold length_minus_1. simpl List.length.
  rewrite Nat2Z.inj_succ, <- Z.add_1_r, inject_Z_plus.
  assert (0 <= inject_Z (Z.of_nat (List.length l))).
  { change 0 with (inject_Z 0). rewrite <- Zle_Qle. apply Nat2Z.is_nonneg. }
  change (inject_Z 1) with 1. lra.
Qed.

(** In exact arithmetic no sum is rounded. *)
Lemma exact_totalLineHeight_from (lines : list (Line Q)) :
  forall acc : Q,
    fold_left (fun acc line => n_add acc (l_height line)) lines acc
    == acc + sum_heights lines.
Proof.
  induction lines as [|line rest IH]; intros acc; simpl.
  - ring.
  - fold (sum_heights rest). rewrite IH. ring.
Qed.

Lemma exact_totalLineHeight (lines : list (Line Q)) :
  totalLineHeight lines == sum_heights lines.
Proof.
  unfold totalLineHeight. rewrite exact_totalLineHeight_from.
  simpl n_zero. ring.
Qed.

Lemma exact_captionExtent (lineSpacing captionMarginTop : Q)
    (lines : list (Line Q)) :
  captionExtent lineSpacing captionMarginTop lines
  == sum_heights lines + length_minus_1 lines * lineSpacing
     + captionMarginTop.
Proof.
  unfold captionExtent, length_minus_1. simpl n_add. simpl n_mul.
  simpl n_sub. simpl n_of_count.
  rewrite exact_totalLineHeight. reflexivity.
Qed.

Lemma exact_unrounded (lineSpacing captionMarginTop : Q)
    (lines : list (Line Q)) :
  unrounded lineSpacing captionMarginTop lines.
Proof. apply exact_captionExtent. Qed.

Lemma exact_gd_unrounded (minLineHeight : Z) (lineSpacing captionMargin : Q)
    (heights : list Z) :
  gd_unrounded minLineHeight lineSpacing captionMargin heights.
Proof. unfold gd_unrounded, Gd.captionExtent, length_minus_1. reflexivity. Qed.

Lemma Qceiling_step (x y : Q) : x + 1 <= y -> (Qceiling x < Qceiling y)%Z.
Proof.
  intros Hxy. rewrite Zlt_Qlt.
  pose proof (Qceiling_lt x) as Hx. pose proof (Qle_ceiling y) as Hy.
  unfold Z.sub in Hx. rewrite inject_Z_plus in Hx.
  change (inject_Z (- (1))) with (- (1))%Q in Hx. lra.
Qed.

(** Rounding toward zero is rounding down from zero on and rounding up
    below zero. *)
Lemma Qtrunc_floor_ceiling (x : Q) :
  Qtrunc x = if Qle_bool 0 x then Qfloor x else Qceiling x.
Proof.
  destruct x as [n d]. unfold Qtrunc, Qceiling, Qfloor, Qle_bool. simpl.
  rewrite Z.mul_1_r.
  destruct (Z.leb_spec 0 n) as [Hn | Hn].
  - apply Z.quot_div_nonneg; lia.
  - replace n with (- (- n))%Z at 1 by lia.
    rewrite Z.quot_opp_l by discriminate.
    rewrite Z.quot_div_nonneg by lia. reflexivity.
Qed.


Lemma Qtrunc_inject_Z (x : Q) (z : Z) : x == inject_Z z -> Qtrunc x = z.
Proof.
  intros Hx. rewrite Qtrunc_floor_ceiling.
  destruct (Qle_bool 0 x); rewrite Hx; [apply Qfloor_Z | apply Qceiling_Z].
Qed.

Lemma to_int32_in_range (x : Q) :
  int32_range (Qtrunc x) -> to_int32 x = Qtrunc x.
Proof.
  unfold int32_range, to_int32. generalize (Qtrunc x). intros z Hz.
  destruct (Z.ltb_spec z 0) as [Hneg | Hpos].
  - rewrite <- (Z_mod_plus_full z 1 (2 ^ 32)).
    rewrite Z.mod_small by lia.
    destruct (Z.ltb_spec (z + 1 * 2 ^ 32) (2 ^ 31)); lia.
  - rewrite Z.mod_small by lia.
    destruct (Z.ltb_spec z (2 ^ 31)); lia.
Qed.



Lemma gd_totalLineHeight_snoc (m : Z) (heights : list Z) (height : Z) :
  Gd.totalLineHeight m (heights ++ [height])
  = (Gd.totalLineHeight m heights + Z.max height m)%Z.
Proof. unfold Gd.totalLineHeight. now rewrite fold_left_app. Qed.

(** The constants of [captionImage], in binary64 and in exact
    arithmetic. *)
Lemma captionImage_constants :
  (@Gd.minLineHeight PrimFloat.float binary64 binary64_math (n_of_count 14)
   = 19%Z
   /\ @n_val PrimFloat.float binary64 binary64_math (n_of_count 2) == 2
   /\ @n_val PrimFloat.float binary64 binary64_math (n_of_Z 24) == 24)
  /\ (@Gd.minLineHeight Q exact exact_math (n_of_count 14) = 19%Z
      /\ @n_val Q exact exact_math (n_of_count 2) == 2
      /\ @n_val Q exact exact_math (n_of_Z 24) == 24).
Proof. repeat split; vm_compute; reflexivity. Qed.

(** When the sum is not rounded, the caption height of [captionImage] is
    the integer sum of the line heights, the spacings and the margin. *)
Lemma captionImage_captionHeight (num : Type) (arith : JsNumber num)
    (math : JsMath num) (heights : list Z) :
  Gd.minLineHeight (n_of_count 14) = 19%Z ->
  n_val (n_of_count 2) == 2 ->
  n_val (n_of_Z 24) == 24 ->
  gd_unrounded 19 (n_of_count 2) (n_of_Z 24) heights ->
  int32_range (captionImage_extent heights) ->
  Gd.calcCaptionHeight (Gd.minLineHeight (n_of_count 14)) (n_of_count 2)
                       (n_of_Z (20 + 4)) heights
  = captionImage_extent heights.
Proof.
  intros Hm H2 H24 Hexact Hrange. rewrite Hm. unfold gd_unrounded in Hexact.
  unfold Gd.calcCaptionHeight, n_int32. change (20 + 4)%Z with 24%Z.
  assert (Hx : Qtrunc (n_val (Gd.captionExtent 19 (n_of_count 2) (n_of_Z 24)
                                               heights))
               = captionImage_extent heights).
  { apply Qtrunc_inject_Z. rewrite Hexact, H2, H24.
    unfold captionImage_extent, length_minus_1, Z.sub.
    rewrite !inject_Z_plus, inject_Z_mult, inject_Z_plus.
    change (inject_Z (- (1))) with (- (1))%Q. change (inject_Z 2) with 2.
    change (inject_Z 24) with 24. ring. }
  rewrite to_int32_in_range; rewrite Hx; auto.
Qed.


(** The height of the canvas for every arithmetic, under the assumption
    that the sums rounded by [captionHeight] carry no rounding error. *)
Lemma canvas_height_grows_aux (num : Type) (arith : JsNumber num)
    (math : JsMath num) (canvas : SquareCanvas.CanvasSize)
    (lineSpacing captionMarginTop : num)
    (lines : list (Line num)) (line : Line num) :
  lines <> [] ->
  0 <= n_val lineSpacing ->
  0 <= n_val (l_height line) ->
  unrounded lineSpacing captionMarginTop lines ->
  unrounded lineSpacing captionMarginTop (lines ++ [line]) ->
  let H := fun ls =>
             SquareCanvas.canvas_height
               (SquareCanvas.resize canvas lineSpacing captionMarginTop ls)
  in
  (H lines <= H (lines ++ [line]))%Z
  /\ (1 <= n_val (l_height line) + n_val lineSpacing ->
      (H lines < H (lines ++ [line]))%Z)
  /\ (0 <= n_val captionMarginTop ->
      Forall (fun l => 0 <= n_val (l_height l)) lines ->
      (SquareCanvas.canvas_height canvas <= H lines)%Z).
Proof.
  intros Hne Hls Hh Hexact Hexact' H.
  unfold unrounded in Hexact, Hexact'.
  rewrite sum_heights_snoc, length_minus_1_snoc in Hexact'.
  unfold H, SquareCanvas.resize. rewrite !squareAdjust_height.
  unfold SquareCanvas.addCaption, SquareCanvas.calcCaptionHeight, n_ceil.
  cbn [SquareCanvas.canvas_height].
  split; [|split].
  - apply Z.add_le_mono_l. apply Qceiling_resp_le. rewrite Hexact, Hexact'.
    lra.
  - intros Hone. apply Z.add_lt_mono_l. apply Qceiling_step.
    rewrite Hexact, Hexact'. lra.
  - intros Hmt Hheights.
    assert (0 <= sum_heights lines) by now apply sum_heights_nonneg.
    assert (0 <= length_minus_1 lines) by now apply length_minus_1_nonneg.
    assert (Hnonneg : 0 <= n_val (captionExtent lineSpacing captionMarginTop
                                                lines))
      by (rewrite Hexact; nra).
    apply Qceiling_resp_le in Hnonneg. change (Qceiling 0) with 0%Z in Hnonneg.
    lia.
Qed.


Lemma captionImage_grows_aux (num : Type) (arith : JsNumber num)
    (math : JsMath num) (comicHeight : Z) (heights : list Z) (height : Z) :
  Gd.minLineHeight (n_of_count 14) = 19%Z ->
  n_val (n_of_count 2) == 2 ->
  n_val (n_of_Z 24) == 24 ->
  gd_unrounded 19 (n_of_count 2) (n_of_Z 24) heights ->
  gd_unrounded 19 (n_of_count 2) (n_of_Z 24) (heights ++ [height]) ->
  int32_range (captionImage_extent heights) ->
  int32_range (captionImage_extent (heights ++ [height])) ->
  (Gd.captionImage_finalImageHeight comicHeight heights
   < Gd.captionImage_finalImageHeight comicHeight (heights ++ [height]))%Z.
Proof.
  intros Hm H2 H24 He1 He2 Hr1 Hr2.
  unfold Gd.captionImage_finalImageHeight. cbn zeta.
  rewrite (@captionImage_captionHeight num arith math heights Hm H2 H24)
    by assumption.
  rewrite (@captionImage_captionHeight num arith math (heights ++ [height])
             Hm H2 H24) by assumption.
  unfold captionImage_extent.
  rewrite gd_totalLineHeight_snoc, length_app. simpl List.length. lia.
Qed.


(** The same in exact arithmetic, where no sum is rounded. *)
Corollary canvas_height_grows_in_exact_arithmetic :
  forall (canvas : SquareCanvas.CanvasSize) (lineSpacing captionMarginTop : Q)
         (lines : list (Line Q)) (line : Line Q),
    lines <> [] ->
    0 <= lineSpacing ->
    0 <= l_height line ->
    let H := fun ls =>
               SquareCanvas.canvas_height
                 (SquareCanvas.resize canvas lineSpacing captionMarginTop ls)
    in
    (H lines <= H (lines ++ [line]))%Z
    /\ (1 <= l_height line + lineSpacing -> (H lines < H (lines ++ [line]))%Z)
    /\ (0 <= captionMarginTop ->
        Forall (fun l => 0 <= l_height l) lines ->
        (SquareCanvas.canvas_height canvas <= H lines)%Z)
    /\ (forall (comicHeight : Z) (heights : list Z) (height : Z),
           int32_range (captionImage_extent heights) ->
           int32_range (captionImage_extent (heights ++ [height])) ->
           (@Gd.captionImage_finalImageHeight Q exact exact_math
              comicHeight heights
            < @Gd.captionImage_finalImageHeight Q exact exact_math
                comicHeight (heights ++ [height]))%Z).
Proof.
  intros canvas ls mt lines line Hne Hls Hh H.
  destruct (@canvas_height_grows_aux Q exact exact_math canvas ls mt lines
              line Hne Hls Hh (exact_unrounded ls mt lines)
              (exact_unrounded ls mt (lines ++ [line])))
    as (Hmono & Hstrict & Hcaption).
  split; [exact Hmono | split; [exact Hstrict | split; [exact Hcaption|]]].
  intros comicHeight heights height Hr1 Hr2.
  destruct captionImage_constants as (_ & (Hm & H2 & H24)).
  apply captionImage_grows_aux; auto; apply exact_gd_unrounded.
Qed.


(** Where a sum is rounded the canvas need not grow: the assumption
    [unrounded] cannot be dropped.  In binary64, with [lineSpacing = 0.1]
    and no margin, lines of height 0.2 and 2.7 give a caption 4 high and a
    third line of height 0.9 leaves it at 4, although 0.9 + 0.1 is at least
    1; exact arithmetic on the same numbers gives 4 and 5.  Likewise the
    image height [(600 / 348 * 290)|0] is 499 in binary64 and 500 in exact
    arithmetic, [(45 * 1.4)|0] is 62 and 63, and one line whose height is
    the binary64 number after 1 gives a caption 26 and 27 high with the
    default options. *)
Example binary64_rounds_the_layout :
  let d := decimal64 in
  let v := fun q : Q => float_value (d q) in
  let lines := fun (num : Type) (arith : JsNumber num) (hs : list num) =>
                 map (fun h => line_of_height h) hs in
  ((SquareCanvas.calcCaptionHeight (d (1 # 10)) (d 0)
      (lines _ _ [d (2 # 10); d (27 # 10)]) = 4%Z
    /\ SquareCanvas.calcCaptionHeight (d (1 # 10)) (d 0)
         (lines _ _ [d (2 # 10); d (27 # 10); d (9 # 10)]) = 4%Z
    /\ 1 <= v (9 # 10) + v (1 # 10))
   /\ (SquareCanvas.calcCaptionHeight (v (1 # 10)) (v 0)
         (lines _ _ [v (2 # 10); v (27 # 10)]) = 4%Z
       /\ SquareCanvas.calcCaptionHeight (v (1 # 10)) (v 0)
            (lines _ _ [v (2 # 10); v (27 # 10); v (9 # 10)]) = 5%Z))
  /\ (@Canvas.comicHeight PrimFloat.float binary64 binary64_math
        Canvas.CAPTION_DEFAULT_OPTS
        {| Canvas.imageWidth := n_of_Z 348; Canvas.imageHeight := n_of_Z 290 |}
      = 499%Z
      /\ @Canvas.comicHeight Q exact exact_math
           Canvas.CAPTION_DEFAULT_OPTS
           {| Canvas.imageWidth := 348; Canvas.imageHeight := 290 |}
         = 500%Z)
  /\ (@Gd.minLineHeight PrimFloat.float binary64 binary64_math (n_of_Z 45)
      = 62%Z
      /\ @Gd.minLineHeight Q exact exact_math 45 = 63%Z)
  /\ (@Canvas.calcCaptionHeight PrimFloat.float binary64 binary64_math
        Canvas.CAPTION_DEFAULT_OPTS
        [line_of_height (PrimFloat.next_up (n_of_Z 1))]
      = 26%Z
      /\ @Canvas.calcCaptionHeight Q exact exact_math
           Canvas.CAPTION_DEFAULT_OPTS
           [line_of_height (float_value (PrimFloat.next_up (n_of_Z 1)))]
         = 27%Z).
Proof.
  cbv zeta.
  split; [split; [split; [|split] | split] | split; [split | split; split]];
    try (vm_compute; reflexivity).
  vm_compute. discriminate.
Qed.

(** ** The flag [lastLine] *)

Section LastLine.

Context {num : Type} {arith : JsNumber num}.

Variables (spaceWidth : num) (linesNeeded : nat)
          (avgLineWidth maxTextWidth : num).

Local Abbreviation step2 :=
  (createBalancedLines_step spaceWidth linesNeeded avgLineWidth maxTextWidth).


Lemma lastLine_step (st : LineState num) (word : MeasuredWord num) :
  lastLine st = lastLine_value linesNeeded st ->
  lastLine (step2 st word) = lastLine_value linesNeeded (step2 st word).
Proof.
  intros Hst. unfold lastLine_value.
  rewrite step_lastLine, step_lines.
  destruct (closes spaceWidth maxTextWidth st word); [|exact Hst].
  rewrite length_app, Nat.add_comm. simpl.
  destruct (lines st); reflexivity.
Qed.

Lemma lastLine_loop (words : list (MeasuredWord num)) :
  forall st,
    lastLine st = lastLine_value linesNeeded st ->
    lastLine (fold_left step2 words st)
    = lastLine_value linesNeeded (fold_left step2 words st).
Proof.
  induction words as [|word rest IH]; intros st Hst; [exact Hst|].
  simpl. apply IH. now apply lastLine_step.
Qed.

(** The closing rule of the code, in every state the loop reaches: the
    soft limit is skipped when no line is pushed yet and [linesNeeded] is 1,
    and when exactly [linesNeeded] lines are pushed. *)
Lemma closes_reached (seen : list (MeasuredWord num))
    (word : MeasuredWord num) :
  let st := createBalancedLines_loop seen spaceWidth linesNeeded
                                     avgLineWidth maxTextWidth in
  closes spaceWidth maxTextWidth st word
  = negb (n_eqb (lineWidth st) n_zero)
    && (hardLimit spaceWidth maxTextWidth st word
        || (negb (lastLine_value linesNeeded st) && softLimit spaceWidth st word)).
Proof.
  intros st. unfold closes.
  unfold st, createBalancedLines_loop.
  now rewrite (lastLine_loop seen (createBalancedLines_init _ _) eq_refl).
Qed.

End LastLine.

(** ** The two closing rules agree in exact arithmetic *)

Lemma count_S (n : nat) : count (S n) == count n + 1.
Proof.
  unfold count. rewrite Nat2Z.inj_succ, <- Z.add_1_r, inject_Z_plus.
  reflexivity.
Qed.

Lemma count_le (m n : nat) : (m <= n)%nat -> count m <= count n.
Proof. intros H. unfold count. rewrite <- Zle_Qle. lia. Qed.

Lemma count_snoc (A : Type) (l : list A) (x : A) :
  count (List.length (l ++ [x])) == count (List.length l) + 1.
Proof.
  rewrite length_app, Nat.add_comm. simpl. apply count_S.
Qed.

Lemma sum_with_spaces_app (spaceWidth : Q) (a b : list (MeasuredWord Q)) :
  sum_with_spaces spaceWidth (a ++ b)
  == sum_with_spaces spaceWidth a + sum_with_spaces spaceWidth b.
Proof.
  induction a as [|x a IH]; simpl; [ring|].
  fold (sum_with_spaces spaceWidth (a ++ b)).
  fold (sum_with_spaces spaceWidth a). rewrite IH. ring.
Qed.

Lemma sum_with_spaces_nonneg (spaceWidth : Q) (g : list (MeasuredWord Q)) :
  0 <= spaceWidth ->
  Forall (fun word => 0 < width word) g ->
  0 <= sum_with_spaces spaceWidth g.
Proof.
  intros Hsp. induction 1 as [|x g Hx Hg IH]; simpl; [lra|].
  fold (sum_with_spaces spaceWidth g). lra.
Qed.

Lemma step_totalTextWidth (num : Type) (arith : JsNumber num)
    (spaceWidth : num) (linesNeeded : nat) (avgLineWidth maxTextWidth : num)
    (st : LineState num) (word : MeasuredWord num) :
  totalTextWidth (createBalancedLines_step spaceWidth linesNeeded
                    avgLineWidth maxTextWidth st word)
  = if closes spaceWidth maxTextWidth st word
    then n_add (totalTextWidth st) (width word)
    else if n_eqb (lineWidth st) n_zero
         then n_add (totalTextWidth st) (width word)
         else n_add (totalTextWidth st) (n_add (width word) spaceWidth).
Proof.
  unfold createBalancedLines_step, closes, hardLimit, softLimit.
  destruct (n_eqb (lineWidth st) n_zero); simpl; [reflexivity|].
  match goal with |- context [if ?c then _ else _] => destruct c end;
    reflexivity.
Qed.

Lemma step_cumAvgLineWidth (num : Type) (arith : JsNumber num)
    (spaceWidth : num) (linesNeeded : nat) (avgLineWidth maxTextWidth : num)
    (st : LineState num) (word : MeasuredWord num) :
  cumAvgLineWidth (createBalancedLines_step spaceWidth linesNeeded
                     avgLineWidth maxTextWidth st word)
  = if closes spaceWidth maxTextWidth st word
    then n_add (cumAvgLineWidth st) avgLineWidth
    else cumAvgLineWidth st.
Proof.
  unfold createBalancedLines_step, closes, hardLimit, softLimit.
  destruct (n_eqb (lineWidth st) n_zero); simpl; [reflexivity|].
  match goal with |- context [if ?c then _ else _] => destruct c end;
    reflexivity.
Qed.

Section ExactAgreement.

Variables (spaceWidth maxTextWidth : Q).

Hypothesis spaceWidth_nonneg : 0 <= spaceWidth.

Local Abbreviation stepA := (calcAvgLineWidth_step spaceWidth maxTextWidth).

(** *** Pass 1 *)

Lemma pass1_first (word : MeasuredWord Q) :
  0 < width word ->
  Pass1Total spaceWidth [word] (stepA calcAvgLineWidth_init word).
Proof.
  intros Hpos. unfold calcAvgLineWidth_step, calcAvgLineWidth_init.
  simpl. constructor; simpl; try lra; try lia.
  unfold count. simpl. ring.
Qed.

Lemma pass1_step (seen : list (MeasuredWord Q)) (st : AvgState Q)
    (word : MeasuredWord Q) :
  0 < width word ->
  Pass1Total spaceWidth seen st ->
  Pass1Total spaceWidth (seen ++ [word]) (stepA st word).
Proof.
  intros Hpos [Hl Hn Hc Ht].
  assert (Hz : Qeq_bool (a_lineWidth st) 0 = false).
  { destruct (Qeq_bool (a_lineWidth st) 0) eqn:E; [|reflexivity].
    apply Qeq_bool_iff in E. lra. }
  assert (Hsum := sum_with_spaces_app spaceWidth seen [word]).
  simpl (sum_with_spaces spaceWidth [word]) in Hsum.
  unfold calcAvgLineWidth_step. simpl n_eqb. rewrite Hz. simpl negb.
  cbv iota.
  destruct (n_leb _ maxTextWidth); simpl;
    constructor; simpl; try lra; try lia.
  rewrite count_S. lra.
Qed.

Lemma pass1_loop (rest : list (MeasuredWord Q)) :
  Forall (fun word => 0 < width word) rest ->
  forall seen st,
    Pass1Total spaceWidth seen st ->
    Pass1Total spaceWidth (seen ++ rest) (fold_left stepA rest st).
Proof.
  induction 1 as [|word rest Hword Hrest IH]; intros seen st Hst.
  - now rewrite app_nil_r.
  - simpl. replace (seen ++ word :: rest) with ((seen ++ [word]) ++ rest)
      by now rewrite <- app_assoc.
    apply IH. now apply pass1_step.
Qed.

Lemma pass1_total (words : list (MeasuredWord Q)) :
  words <> [] ->
  Forall (fun word => 0 < width word) words ->
  Pass1Total spaceWidth words
             (calcAvgLineWidth_loop words spaceWidth maxTextWidth).
Proof.
  destruct words as [|word rest]; [congruence|]. intros _ Hpos.
  inversion Hpos as [|w r Hword Hrest]; subst.
  unfold calcAvgLineWidth_loop. simpl fold_left.
  apply (pass1_loop Hrest (seen := [word])). now apply pass1_first.
Qed.

(** *** Pass 2 *)

Variables (linesNeeded : nat) (avgLineWidth : Q).

Hypothesis avgLineWidth_nonneg : 0 <= avgLineWidth.

Local Abbreviation stepB :=
  (createBalancedLines_step spaceWidth linesNeeded avgLineWidth maxTextWidth).

Lemma pass2_init :
  Pass2Total spaceWidth avgLineWidth []
             (createBalancedLines_init linesNeeded avgLineWidth).
Proof.
  constructor; simpl; try congruence; auto.
  unfold count. simpl. ring.
Qed.

Lemma pass2_step (seen : list (MeasuredWord Q)) (st : LineState Q)
    (word : MeasuredWord Q) :
  0 < width word ->
  Pass2Total spaceWidth avgLineWidth seen st ->
  Pass2Total spaceWidth avgLineWidth (seen ++ [word]) (stepB st word).
Proof.
  intros Hpos [Hs Hl Ht Hc].
  assert (Hsum := sum_with_spaces_app spaceWidth seen [word]).
  simpl (sum_with_spaces spaceWidth [word]) in Hsum.
  assert (Hsnoc : seen ++ [word] <> [])
    by (intros E; now apply app_eq_nil in E as [_ E]).
  constructor; try congruence; intros;
    rewrite ?step_lineWidth, ?step_totalTextWidth, ?step_cumAvgLineWidth,
            ?step_lines;
    destruct (closes spaceWidth maxTextWidth st word) eqn:Hcl;
    simpl n_add; simpl n_eqb; simpl n_zero;
    rewrite ?count_snoc;
    try (apply closes_nonzero in Hcl; simpl in Hcl);
    destruct (Qeq_bool (lineWidth st) 0) eqn:Hz; try discriminate;
    try (apply Qeq_bool_iff in Hz);
    try (assert (Hne : seen <> [])
           by (intros E; destruct (Hs E) as (E1 & _); rewrite E1 in Hz;
               discriminate);
         specialize (Hl Hne); specialize (Ht Hne));
    try lra.
  - (* first word *)
    destruct seen as [|x seen].
    + destruct (Hs eq_refl) as (_ & Htot & Hlines).
      rewrite Htot, Hlines. simpl. unfold count. simpl. ring.
    + assert (0 < lineWidth st) by (apply Hl; discriminate). lra.
Qed.

(** Once [linesNeeded - 1] lines are pushed the soft limit cannot hold:
    the total of pass 1, which the cumulative average has reached, already
    counts every word and at least as many spaces. *)
Lemma soft_limit_off (seen rest : list (MeasuredWord Q)) (st : LineState Q)
    (word : MeasuredWord Q) :
  Pass2Total spaceWidth avgLineWidth seen st ->
  seen <> [] ->
  Forall (fun w => 0 < width w) rest ->
  count linesNeeded * avgLineWidth
  == sum_with_spaces spaceWidth (seen ++ word :: rest)
     - count linesNeeded * spaceWidth ->
  (linesNeeded <= S (List.length (lines st)))%nat ->
  softLimit spaceWidth st word = false.
Proof.
  intros [_ _ Ht Hc] Hne Hrest Htotal Hlast.
  specialize (Ht Hne).
  unfold softLimit. simpl. apply negb_false_iff, Qle_bool_iff.
  rewrite sum_with_spaces_app in Htotal.
  simpl (sum_with_spaces spaceWidth (word :: rest)) in Htotal.
  fold (sum_with_spaces spaceWidth rest) in Htotal.
  pose proof (sum_with_spaces_nonneg spaceWidth_nonneg Hrest) as Hrest0.
  apply count_le in Hlast. rewrite count_S in Hlast.
  set (c := count (List.length (lines st))) in *.
  set (n := count linesNeeded) in *.
  assert (0 <= (c + 1 - n) * avgLineWidth)
    by (apply Qmult_le_0_compat; lra).
  assert (0 <= (c + 1 - n) * spaceWidth)
    by (apply Qmult_le_0_compat; lra).
  lra.
Qed.

(** *** The two loops *)

Lemma agree_fields (st st' : LineState Q) :
  agree st st' ->
  lines st = lines st' /\ totalTextWidth st = totalTextWidth st'
  /\ lineWords st = lineWords st' /\ lineWidth st = lineWidth st'
  /\ cumAvgLineWidth st = cumAvgLineWidth st'.
Proof.
  destruct st, st'. unfold agree, with_lastLine. simpl.
  intros E. injection E. auto.
Qed.

Lemma agree_with_lastLine (b : bool) (st st' : LineState Q) :
  agree st st' -> agree st (with_lastLine b st').
Proof. unfold agree. intros ->. reflexivity. Qed.

Lemma agree_step (st st' : LineState Q) (word : MeasuredWord Q) :
  agree st st' ->
  closes spaceWidth maxTextWidth st word
  = closes spaceWidth maxTextWidth st' word ->
  agree (stepB st word) (stepB st' word).
Proof.
  intros Hag. destruct (agree_fields Hag) as (E1 & E2 & E3 & E4 & E5).
  destruct st, st'. simpl in *. subst.
  unfold closes, hardLimit, softLimit, createBalancedLines_step, agree,
    with_lastLine. simpl.
  match goal with
  | |- context [Qeq_bool ?x 0] => destruct (Qeq_bool x 0)
  end; simpl; [reflexivity|].
  intros ->.
  match goal with |- context [if ?c then _ else _] => destruct c end;
    reflexivity.
Qed.

Lemma agree_flush (st st' : LineState Q) :
  agree st st' -> flush st = flush st'.
Proof.
  intros Hag. destruct (agree_fields Hag) as (E1 & _ & E3 & _).
  unfold flush. now rewrite E1, E3.
Qed.

(** In a state the code reaches, the test of the code and the test of the
    specification give the same answer. *)
Lemma closes_agree (seen rest : list (MeasuredWord Q)) (st st' : LineState Q)
    (word : MeasuredWord Q) :
  Pass2Total spaceWidth avgLineWidth seen st ->
  Forall (fun w => 0 < width w) rest ->
  count linesNeeded * avgLineWidth
  == sum_with_spaces spaceWidth (seen ++ word :: rest)
     - count linesNeeded * spaceWidth ->
  lastLine st = lastLine_value linesNeeded st ->
  agree st st' ->
  closes spaceWidth maxTextWidth st word
  = closes spaceWidth maxTextWidth
      (with_lastLine (negb (notLastLine_spec linesNeeded st')) st') word.
Proof.
  intros Hst Hrest Htotal Hflag Hag.
  destruct (agree_fields Hag) as (E1 & E2 & E3 & E4 & E5).
  unfold closes, hardLimit, softLimit, notLastLine_spec. simpl.
  rewrite <- E1, <- E2, <- E4, <- E5.
  destruct (Qeq_bool (lineWidth st) 0) eqn:Hz; [reflexivity|]. simpl.
  f_equal.
  assert (Hne : seen <> []).
  { intros E. destruct (p2_start Hst E) as (E0 & _). rewrite E0 in Hz.
    discriminate. }
  destruct (Nat.le_gt_cases linesNeeded (S (List.length (lines st))))
    as [Hlast | Hnot].
  - pose proof (soft_limit_off word Hst Hne Hrest Htotal Hlast) as Hsoft.
    unfold softLimit in Hsoft. simpl in Hsoft. rewrite Hsoft.
    now rewrite !andb_false_r.
  - assert (Hv : lastLine_value linesNeeded st = false).
    { unfold lastLine_value.
      destruct (lines st); simpl in Hnot; apply Nat.eqb_neq; simpl; lia. }
    assert (Hs : (List.length (lines st) <? linesNeeded - 1)%nat = true)
      by (apply Nat.ltb_lt; lia).
    rewrite Hflag, Hv, Hs. reflexivity.
Qed.

Lemma agree_loop (rest : list (MeasuredWord Q)) :
  Forall (fun w => 0 < width w) rest ->
  forall seen st st',
    count linesNeeded * avgLineWidth
    == sum_with_spaces spaceWidth (seen ++ rest)
       - count linesNeeded * spaceWidth ->
    Pass2Total spaceWidth avgLineWidth seen st ->
    lastLine st = lastLine_value linesNeeded st ->
    agree st st' ->
    agree (fold_left stepB rest st)
          (fold_left
             (fun s word =>
                stepB (with_lastLine (negb (notLastLine_spec linesNeeded s)) s)
                      word)
             rest st').
Proof.
  induction 1 as [|word rest Hword Hrest IH];
    intros seen st st' Htotal Hst Hflag Hag; [exact Hag|].
  simpl. apply (IH (seen ++ [word])).
  - now rewrite <- app_assoc.
  - now apply pass2_step.
  - now apply lastLine_step.
  - apply agree_step.
    + now apply agree_with_lastLine.
    + now apply (closes_agree (seen := seen) (rest := rest)).
Qed.

End ExactAgreement.

(** In exact arithmetic, for words of positive width, the code and the rule
    of the specification return the same lines through the two passes: the
    soft limit is tested on the last line, but it cannot hold there.  The
    two differ only under rounding, or when pass 2 is given a line count and
    an average that do not come from pass 1. *)
Theorem exact_balance_follows_the_specified_rule :
  forall (words : list (MeasuredWord Q)) (spaceWidth maxTextWidth : Q),
    Forall (fun word => 0 < width word) words ->
    0 <= spaceWidth ->
    balance words spaceWidth maxTextWidth
    = Normal (balance_spec words spaceWidth maxTextWidth).
Proof.
  intros words sp mx Hpos Hsp.
  destruct words as [|word rest] eqn:Hwords; [reflexivity|].
  rewrite <- Hwords in *.
  assert (Hne : words <> []) by (rewrite Hwords; discriminate).
  destruct (pass1_total mx Hsp Hne Hpos) as [_ Hnonneg Hcount Htotal].
  rewrite balance_returns. unfold balance_spec, calcAvgLineWidth.
  set (st1 := calcAvgLineWidth_loop words sp mx) in *.
  cbn [fst snd]. f_equal.
  unfold createBalancedLines, createBalancedLines_spec,
    createBalancedLines_loop.
  apply agree_flush.
  assert (Hn : 0 < count (a_linesNeeded st1)).
  { apply count_le in Hcount. change (count 1) with 1 in Hcount. lra. }
  set (avg := n_div (a_totalTextWidth st1) (n_of_count (a_linesNeeded st1))).
  assert (Havg : count (a_linesNeeded st1) * avg == a_totalTextWidth st1).
  { unfold avg. simpl. fold (count (a_linesNeeded st1)). field. lra. }
  assert (Havg0 : 0 <= avg).
  { unfold avg. simpl. fold (count (a_linesNeeded st1)).
    apply Qle_shift_div_l; [exact Hn | lra]. }
  apply (agree_loop mx Hsp Havg0 Hpos (seen := [])).
  - simpl app. rewrite Havg. exact Htotal.
  - apply pass2_init.
  - reflexivity.
  - reflexivity.
Qed.

Lemma exact_balance_follows_the_specified_rule_witness :
  Forall (fun word => 0 < width word) seven_words
  /\ 0 <= 2
  /\ balance seven_words 2 33 = Normal (balance_spec seven_words 2 33).
Proof.
  assert (Hpos : Forall (fun word : MeasuredWord Q => 0 < width word)
                        seven_words)
    by (repeat constructor).
  assert (Hsp : 0 <= 2) by (vm_compute; discriminate).
  split; [exact Hpos | split; [exact Hsp|]].
  exact (@exact_balance_follows_the_specified_rule seven_words 2 33 Hpos Hsp).
Defined.

(** C2. The code at two inputs where it leaves the rule of the
    specification.

    Through both passes in binary64: seven words of integer widths, none
    wider than [maxTextWidth = 33].  Pass 1 counts 6 lines.  When pass 2
    reads the last word, 5 lines are pushed, so the line being built is the
    6th and last; [lastLine] is still false, the soft limit is tested and,
    by rounding of the cumulative average, it holds: the last word gets a
    7th line.  Under the rule of the specification, and in exact
    arithmetic, the result is 6 lines.

    Called with [linesNeeded = 2] and a small average, in exact arithmetic:
    the second, last line is closed by the soft limit. *)
Theorem soft_limit_applies_to_the_final_line :
  let sp := float_of_Z 2 in
  let mx := float_of_Z 33 in
  let avg := snd (calcAvgLineWidth seven_words64 sp mx) in
  let st := createBalancedLines_loop (firstn 6 seven_words64) sp 6 avg mx in
  let g := word64 "g" 4 in
  (fst (calcAvgLineWidth seven_words64 sp mx) = 6%nat
   /\ List.length (lines st) = 5%nat
   /\ lastLine st = false
   /\ hardLimit sp mx st g = false
   /\ softLimit sp st g = true
   /\ closes sp mx st g = true
   /\ closes_spec sp 6 mx st g = false)
  /\ balance seven_words64 sp mx
     = Normal [lit "a"; lit "b"; lit "c"; lit "d"; lit "e"; lit "f"; lit "g"]
  /\ balance_spec seven_words64 sp mx
     = [lit "a"; lit "b"; lit "c"; lit "d"; lit "e"; lit "f g"]
  /\ balance seven_words 2 33
     = Normal [lit "a"; lit "b"; lit "c"; lit "d"; lit "e"; lit "f g"]
  /\ createBalancedLines four_words 10 2 10 1000
     = [lit "a"; lit "b"; lit "c d"]
  /\ createBalancedLines_spec four_words 10 2 10 1000
     = [lit "a"; lit "b c d"].
Proof.
  cbn zeta. repeat split; vm_compute; reflexivity.
Qed.

(* ================================================================== *)
(** * Further properties of the code *)

(** ** The caption text made from a tweet *)

Lemma split_from_head (s : jsstring) :
  forall tok, exists t rest, split_from false tok s = (tok ++ t) :: rest.
Proof.
  induction s as [|c r IH]; intros tok; simpl.
  - exists [], []. now rewrite app_nil_r.
  - destruct (is_white_space c).
    + exists [], (split_from true [] r). now rewrite app_nil_r.
    + destruct (IH (tok ++ [c])) as (t & rest & E).
      exists (c :: t), rest. rewrite E. now rewrite <- app_assoc.
Qed.

Lemma last_cons_nonempty (A : Type) (x d : A) (l : list A) :
  l <> [] -> last (x :: l) d = last l d.
Proof. destruct l; [congruence | reflexivity]. Qed.

Lemma split_from_last (s : jsstring) :
  s <> [] ->
  is_white_space (last s 32%N) = false ->
  forall b tok, nonempty (last (split_from b tok s) []) = true.
Proof.
  induction s as [|c r IH]; [congruence|]. intros _ Hlast b tok.
  destruct r as [|c' r].
  - simpl in Hlast. simpl. rewrite Hlast. simpl. apply nonempty_snoc.
  - rewrite last_cons_nonempty in Hlast by discriminate.
    assert (Hr : c' :: r <> []) by discriminate.
    specialize (IH Hr Hlast).
    change (split_from b tok (c :: c' :: r))
      with (if is_white_space c
            then if b then split_from true [] (c' :: r)
                 else tok :: split_from true [] (c' :: r)
            else split_from false (tok ++ [c]) (c' :: r)).
    destruct (is_white_space c); [destruct b|]; auto.
    rewrite last_cons_nonempty by apply split_from_nonempty. auto.
Qed.

Lemma inner_pieces_tokens (l : list jsstring) :
  inner_pieces l = true ->
  nonempty (last l []) = true ->
  Forall token l.
Proof.
  induction l as [|y l IH]; [discriminate|].
  destruct l as [|z l].
  - simpl. intros Hy Hne. constructor; [now split | constructor].
  - intros H Hlast.
    change (inner_pieces (y :: z :: l))
      with (ws_free y && nonempty y && inner_pieces (z :: l)) in H.
    apply andb_prop in H as [H Hrest]. apply andb_prop in H as [Hy Hne].
    rewrite last_cons_nonempty in Hlast by discriminate.
    constructor; [now split | auto].
Qed.

Lemma pieces_tokens (l : list jsstring) :
  pieces l = true ->
  nonempty (hd [] l) = true ->
  nonempty (last l []) = true ->
  Forall token l.
Proof.
  destruct l as [|x l]; [discriminate|].
  destruct l as [|y l].
  - simpl. intros Hx Hne _. constructor; [now split | constructor].
  - intros H Hhd Hlast.
    change (pieces (x :: y :: l))
      with (ws_free x && inner_pieces (y :: l)) in H.
    apply andb_prop in H as [Hx Hrest].
    rewrite last_cons_nonempty in Hlast by discriminate.
    constructor; [now split | now apply inner_pieces_tokens].
Qed.

(** Splitting a string that neither starts nor ends with white space gives
    words only: no piece is empty. *)
Lemma split_ws_tight (s : jsstring) :
  tight s -> Forall token (split_ws s).
Proof.
  intros (Hne & Hhd & Hlast).
  apply pieces_tokens.
  - apply split_ws_pieces.
  - destruct s as [|c r]; [congruence|]. simpl in Hhd.
    unfold split_ws. simpl. rewrite Hhd.
    destruct (split_from_head r [c]) as (t & rest & E). rewrite E.
    reflexivity.
  - now apply split_from_last.
Qed.

Lemma trimStart_suffix (s : jsstring) :
  exists pre,
    s = pre ++ Bot.trimStart s
    /\ Forall (fun c => is_white_space c = true) pre.
Proof.
  induction s as [|c r (pre & E & Hpre)]; [now exists []|].
  simpl. destruct (is_white_space c) eqn:Hc.
  - exists (c :: pre). split; [simpl; now rewrite <- E | now constructor].
  - now exists [].
Qed.

Lemma trimStart_head (s : jsstring) :
  Bot.trimStart s = []
  \/ is_white_space (hd 32%N (Bot.trimStart s)) = false.
Proof.
  induction s as [|c r IH]; [now left|].
  simpl. destruct (is_white_space c) eqn:Hc; [exact IH|].
  right. exact Hc.
Qed.

Lemma trimStart_all_white (pre : jsstring) (s : jsstring) :
  Forall (fun c => is_white_space c = true) pre ->
  Bot.trimStart (pre ++ s) = Bot.trimStart s.
Proof.
  induction 1 as [|c pre Hc Hpre IH]; [reflexivity|].
  simpl. now rewrite Hc.
Qed.

Lemma trimStart_fixed (s : jsstring) :
  is_white_space (hd 32%N s) = false -> Bot.trimStart s = s.
Proof.
  destruct s as [|c r]; [reflexivity|]. simpl. now intros ->.
Qed.

Lemma trimEnd_prefix (s : jsstring) :
  exists suf,
    s = Bot.trimEnd s ++ suf
    /\ Forall (fun c => is_white_space c = true) suf.
Proof.
  unfold Bot.trimEnd.
  destruct (trimStart_suffix (rev s)) as (pre & E & Hpre).
  exists (rev pre). split.
  - rewrite <- rev_app_distr, <- E. now rewrite rev_involutive.
  - now apply Forall_rev.
Qed.

Lemma last_rev_hd (A : Type) (l : list A) (d : A) :
  last (rev l) d = hd d l.
Proof.
  destruct l as [|x l]; [reflexivity|]. simpl. apply last_last.
Qed.

Lemma trimEnd_last (s : jsstring) :
  Bot.trimEnd s = []
  \/ is_white_space (last (Bot.trimEnd s) 32%N) = false.
Proof.
  unfold Bot.trimEnd.
  destruct (trimStart_head (rev s)) as [E | H].
  - left. now rewrite E.
  - right. now rewrite last_rev_hd.
Qed.

(** [trim] only removes white space, at the two ends, and what is left is
    empty or starts and ends with a character that is not white space. *)
Lemma trim_spec (s : jsstring) :
  (exists pre suf,
      s = pre ++ Bot.trim s ++ suf
      /\ Forall (fun c => is_white_space c = true) pre
      /\ Forall (fun c => is_white_space c = true) suf)
  /\ (Bot.trim s = [] \/ tight (Bot.trim s)).
Proof.
  unfold Bot.trim.
  destruct (trimStart_suffix s) as (pre & Es & Hpre).
  destruct (trimEnd_prefix (Bot.trimStart s)) as (suf & Et & Hsuf).
  split.
  - exists pre, suf. repeat split; auto. now rewrite <- Et.
  - destruct (trimEnd_last (Bot.trimStart s)) as [E | Hlast]; [now left|].
    destruct (Bot.trimEnd (Bot.trimStart s)) as [|c r] eqn:Ek; [now left|].
    right. repeat split; [discriminate | | exact Hlast].
    destruct (trimStart_head s) as [E0 | Hhd].
    + rewrite E0 in Et. discriminate.
    + rewrite Et in Hhd. exact Hhd.
Qed.

Lemma removelast_length (A : Type) (l : list A) :
  List.length (removelast l) = Nat.pred (List.length l).
Proof.
  rewrite removelast_firstn_len, length_firstn. lia.
Qed.

(** The loop, for any number of rounds that covers the words. *)
Lemma popTrailingUrls_spec (fuel : nat) :
  forall splitTweet,
    (List.length splitTweet <= fuel)%nat ->
    let kept := Bot.popTrailingUrls fuel splitTweet in
    (exists removed,
        splitTweet = kept ++ removed
        /\ Forall (fun word => Bot.is_url word = true) removed)
    /\ (kept = [] \/ Bot.is_url (last kept []) = false).
Proof.
  induction fuel as [|fuel IH]; intros l Hlen.
  - destruct l; [|simpl in Hlen; lia]. simpl. split; [|now left].
    now exists [].
  - destruct l as [|x l']; [simpl; split; [now exists [] | now left]|].
    set (l := x :: l') in *.
    assert (Hne : l <> []) by discriminate.
    change (Bot.popTrailingUrls (S fuel) l)
      with (if Bot.is_url (last l [])
            then Bot.popTrailingUrls fuel (removelast l) else l).
    destruct (Bot.is_url (last l [])) eqn:Hurl.
    + assert (Hlen' : (List.length (removelast l) <= fuel)%nat)
        by (rewrite removelast_length; lia).
      destruct (IH (removelast l) Hlen') as ((removed & E & Hrem) & Hkept).
      split; [|exact Hkept].
      exists (removed ++ [last l []]). split.
      * rewrite app_assoc, <- E. now apply app_removelast_last.
      * apply Forall_app. split; [assumption | now repeat constructor].
    + cbn zeta. split; [exists []; now rewrite app_nil_r | now right].
Qed.

(** More rounds change nothing: the loop has stopped by itself. *)
Lemma popTrailingUrls_stops (fuel : nat) :
  forall splitTweet,
    (List.length splitTweet <= fuel)%nat ->
    Bot.popTrailingUrls fuel splitTweet = Bot.removeTrailingUrls splitTweet.
Proof.
  unfold Bot.removeTrailingUrls.
  induction fuel as [|fuel IH]; intros l Hlen.
  - destruct l; [reflexivity | simpl in Hlen; lia].
  - destruct l as [|x l']; [reflexivity|].
    set (l := x :: l') in *.
    change (List.length l) with (S (List.length l')).
    change (Bot.popTrailingUrls (S fuel) l)
      with (if Bot.is_url (last l [])
            then Bot.popTrailingUrls fuel (removelast l) else l).
    change (Bot.popTrailingUrls (S (List.length l')) l)
      with (if Bot.is_url (last l [])
            then Bot.popTrailingUrls (List.length l') (removelast l) else l).
    destruct (Bot.is_url (last l [])); [|reflexivity].
    assert (Hl : List.length (removelast l) = List.length l')
      by (rewrite removelast_length; reflexivity).
    rewrite IH by (rewrite Hl; simpl in Hlen; lia).
    rewrite <- Hl. reflexivity.
Qed.

(** X1. Removing the trailing URLs keeps a prefix of the words and removes only
    URLs; it stops at the last word that is not a URL, so that the words
    kept are empty or end with a word that is not a URL.  Doing it again
    changes nothing, and the loop needs no more rounds than there are
    words. *)
Theorem removeTrailingUrls_spec :
  forall splitTweet : list jsstring,
    let kept := Bot.removeTrailingUrls splitTweet in
    (exists removed,
        splitTweet = kept ++ removed
        /\ Forall (fun word => Bot.is_url word = true) removed)
    /\ (kept = [] \/ Bot.is_url (last kept []) = false)
    /\ Bot.removeTrailingUrls kept = kept
    /\ (forall fuel, (List.length splitTweet <= fuel)%nat ->
                     Bot.popTrailingUrls fuel splitTweet = kept).
Proof.
  intros l kept.
  destruct (popTrailingUrls_spec l (Nat.le_refl _)) as (Hsplit & Hlast).
  fold (Bot.removeTrailingUrls l) in Hsplit, Hlast. fold kept in Hsplit, Hlast.
  split; [exact Hsplit | split; [exact Hlast | split]].
  - unfold Bot.removeTrailingUrls.
    destruct Hlast as [-> | Hlast]; [reflexivity|].
    destruct kept as [|x k]; [reflexivity|].
    change (Bot.popTrailingUrls (List.length (x :: k)) (x :: k))
      with (if Bot.is_url (last (x :: k) [])
            then Bot.popTrailingUrls (List.length k) (removelast (x :: k))
            else x :: k).
    now rewrite Hlast.
  - intros fuel Hfuel. now apply popTrailingUrls_stops.
Qed.

(** X2. The words of a tweet: after [trim], splitting on white space gives
    words that are not empty, except for a blank text, which gives the
    single empty word. *)
Theorem tweet_words_are_tokens :
  forall tweetText : jsstring,
    let splitTweet := split_ws (Bot.trim tweetText) in
    (Bot.trim tweetText = [] /\ splitTweet = [[]])
    \/ (Bot.trim tweetText <> [] /\ Forall token splitTweet).
Proof.
  intros text splitTweet. unfold splitTweet.
  destruct (proj2 (trim_spec text)) as [E | Htight].
  - left. rewrite E. now split.
  - right. split; [apply Htight | now apply split_ws_tight].
Qed.

Lemma quoted_tight (middle : jsstring) :
  tight (Bot.LEFT_QUOTE ++ middle ++ Bot.RIGHT_QUOTE).
Proof.
  unfold tight, Bot.LEFT_QUOTE, Bot.RIGHT_QUOTE. repeat split.
  - discriminate.
  - simpl app at 1. rewrite app_comm_cons. now rewrite last_last.
Qed.

Lemma split_from_first_code_unit (c : code_unit) (r : jsstring) :
  is_white_space c = false ->
  exists t rest, split_ws (c :: r) = (c :: t) :: rest.
Proof.
  intros Hc. unfold split_ws. simpl. rewrite Hc.
  destruct (split_from_head r [c]) as (t & rest & E).
  now exists t, rest.
Qed.

(** X3. Whatever the tweet, the caption handed to the captioner splits into
    words none of which is empty, the first of them starting with the left
    quote.  This holds for the caption of [captionAndReplyTo], made after
    the trailing URLs are removed (a tweet of URLs only gives the two
    quotes), and for that of the earlier [handleTweet]. *)
Theorem caption_words_are_tokens :
  forall tweetText : jsstring,
    (Forall token (split_ws (Bot.quotedText tweetText))
     /\ exists first rest,
          split_ws (Bot.quotedText tweetText)
          = (Bot.LEFT_QUOTE ++ first) :: rest)
    /\ (Forall token (split_ws (Bot.handleTweet_tweetText tweetText))
        /\ exists first rest,
             split_ws (Bot.handleTweet_tweetText tweetText)
             = (Bot.LEFT_QUOTE ++ first) :: rest)
    /\ (forall (num : Type)
               (measureText : jsstring -> Canvas.TextMetrics num),
           Forall (fun word => token (text word))
                  (Canvas.measureWords measureText
                                       (Bot.quotedText tweetText))).
Proof.
  intros tweetText.
  assert (Hq : forall middle,
             Forall token
                    (split_ws (Bot.LEFT_QUOTE ++ middle ++ Bot.RIGHT_QUOTE))
             /\ exists first rest,
                  split_ws (Bot.LEFT_QUOTE ++ middle ++ Bot.RIGHT_QUOTE)
                  = (Bot.LEFT_QUOTE ++ first) :: rest).
  { intros middle. split; [apply split_ws_tight, quoted_tight|].
    apply split_from_first_code_unit. reflexivity. }
  split; [apply Hq | split; [apply Hq|]].
  intros num measureText.
  pose proof (proj1 (Hq (join SPACE
                          (Bot.removeTrailingUrls
                             (split_ws (Bot.trim tweetText)))))) as Htok.
  fold (Bot.quotedText tweetText) in Htok.
  unfold Canvas.measureWords. apply Forall_map. simpl. exact Htok.
Qed.

(** ** Pass 1 counts the fewest lines *)

Section Greedy.

Variables (spaceWidth maxTextWidth : Q).

Hypothesis spaceWidth_nonneg : 0 <= spaceWidth.

Local Abbreviation stepG := (calcAvgLineWidth_step spaceWidth maxTextWidth).
Local Abbreviation run := (fold_left stepG).

(** The loop body on a line that is not empty. *)
Lemma stepG_nonempty (st : AvgState Q) (word : MeasuredWord Q) :
  0 < a_lineWidth st ->
  (Qle_bool (a_lineWidth st + spaceWidth + width word) maxTextWidth = true
   /\ a_lineWidth (stepG st word)
      = a_lineWidth st + (width word + spaceWidth)
   /\ a_linesNeeded (stepG st word) = a_linesNeeded st)
  \/ (Qle_bool (a_lineWidth st + spaceWidth + width word) maxTextWidth = false
      /\ a_lineWidth (stepG st word) = 0 + width word
      /\ a_linesNeeded (stepG st word) = S (a_linesNeeded st)).
Proof.
  intros Hpos.
  assert (Hz : Qeq_bool (a_lineWidth st) 0 = false).
  { destruct (Qeq_bool (a_lineWidth st) 0) eqn:E; [|reflexivity].
    apply Qeq_bool_iff in E. lra. }
  unfold calcAvgLineWidth_step. simpl n_eqb. simpl n_zero. rewrite Hz.
  simpl negb. cbv iota. simpl n_leb. simpl n_add.
  destruct (Qle_bool (a_lineWidth st + spaceWidth + width word) maxTextWidth);
    [left | right]; repeat split.
Qed.

Lemma stepG_positive (st : AvgState Q) (word : MeasuredWord Q) :
  0 <= a_lineWidth st -> 0 < width word -> 0 < a_lineWidth (stepG st word).
Proof.
  intros Hlw Hw. unfold calcAvgLineWidth_step. simpl.
  destruct (negb (Qeq_bool (a_lineWidth st) 0));
    [destruct (Qle_bool _ maxTextWidth)|]; simpl; lra.
Qed.

Lemma Qle_bool_mono (a b c : Q) :
  a <= b -> Qle_bool b c = true -> Qle_bool a c = true.
Proof. rewrite !Qle_bool_iff. lra. Qed.

(** Two runs over the same words differ by at most one line, and a run
    that starts with a shorter line does not use more lines. *)
Lemma run_compare (rest : list (MeasuredWord Q)) :
  Forall (fun word => 0 < width word) rest ->
  (forall st st',
      0 < a_lineWidth st -> 0 < a_lineWidth st' ->
      (a_linesNeeded (run rest st') + a_linesNeeded st
       <= 1 + a_linesNeeded (run rest st) + a_linesNeeded st')%nat)
  /\ (forall st st',
         0 < a_lineWidth st -> a_lineWidth st <= a_lineWidth st' ->
         (a_linesNeeded (run rest st) + a_linesNeeded st'
          <= a_linesNeeded (run rest st') + a_linesNeeded st)%nat).
Proof.
  induction 1 as [|word rest Hword Hrest [IHa IHb]]; split;
    intros st st' Hst Hst'; simpl; try lia.
  - (* at most one line apart *)
    assert (P : 0 < a_lineWidth (stepG st word))
      by (apply stepG_positive; lra).
    assert (P' : 0 < a_lineWidth (stepG st' word))
      by (apply stepG_positive; lra).
    destruct (stepG_nonempty st word Hst) as [(F & L & N) | (F & L & N)];
      destruct (stepG_nonempty st' word Hst') as [(F' & L' & N') | (F' & L' & N')].
    + specialize (IHa _ _ P P'). lia.
    + assert (Hle : a_lineWidth (stepG st' word)
                    <= a_lineWidth (stepG st word))
        by (rewrite L, L'; lra).
      specialize (IHb _ _ P' Hle). lia.
    + specialize (IHa _ _ P P'). lia.
    + assert (Hle : a_lineWidth (stepG st' word)
                    <= a_lineWidth (stepG st word))
        by (rewrite L, L'; lra).
      specialize (IHb _ _ P' Hle). lia.
  - (* a shorter line does not use more lines *)
    assert (Hpos' : 0 < a_lineWidth st') by lra.
    assert (P : 0 < a_lineWidth (stepG st word))
      by (apply stepG_positive; lra).
    assert (P' : 0 < a_lineWidth (stepG st' word))
      by (apply stepG_positive; lra).
    destruct (stepG_nonempty st word Hst) as [(F & L & N) | (F & L & N)];
      destruct (stepG_nonempty st' word Hpos')
        as [(F' & L' & N') | (F' & L' & N')].
    + assert (Hle : a_lineWidth (stepG st word)
                    <= a_lineWidth (stepG st' word))
        by (rewrite L, L'; lra).
      specialize (IHb _ _ P Hle). lia.
    + specialize (IHa _ _ P' P). lia.
    + assert (Qle_bool (a_lineWidth st + spaceWidth + width word)
                       maxTextWidth = true)
        by (apply (Qle_bool_mono (b := a_lineWidth st' + spaceWidth
                                       + width word)); [lra | exact F']).
      congruence.
    + assert (Hle : a_lineWidth (stepG st word)
                    <= a_lineWidth (stepG st' word))
        by (rewrite L, L'; lra).
      specialize (IHb _ _ P Hle). lia.
Qed.

Lemma line_width_grows (grp more : list (MeasuredWord Q)) :
  Forall (fun word => 0 < width word) more ->
  line_width spaceWidth grp <= line_width spaceWidth (grp ++ more).
Proof.
  intros Hmore. revert grp.
  induction Hmore as [|word more Hword Hmore IH]; intros grp.
  - rewrite app_nil_r. lra.
  - replace (grp ++ word :: more) with ((grp ++ [word]) ++ more)
      by now rewrite <- app_assoc.
    specialize (IH (grp ++ [word])). rewrite line_width_snoc in IH. lra.
Qed.

(** A line that fits is read by pass 1 without a break. *)
Lemma run_within_line (more : list (MeasuredWord Q)) :
  Forall (fun word => 0 < width word) more ->
  forall (grp : list (MeasuredWord Q)) (st : AvgState Q),
    grp <> [] ->
    0 < a_lineWidth st ->
    a_lineWidth st == line_width spaceWidth grp ->
    line_fits spaceWidth maxTextWidth (grp ++ more) ->
    a_linesNeeded (run more st) = a_linesNeeded st
    /\ 0 < a_lineWidth (run more st)
    /\ a_lineWidth (run more st) == line_width spaceWidth (grp ++ more).
Proof.
  induction 1 as [|word more Hword Hmore IH]; intros grp st Hne Hpos Hlw Hfit.
  - simpl. rewrite app_nil_r. auto.
  - simpl.
    assert (Hlen : (2 <= List.length (grp ++ word :: more))%nat).
    { rewrite length_app. destruct grp; [congruence|]. simpl. lia. }
    specialize (Hfit Hlen).
    pose proof (line_width_grows (grp ++ [word]) Hmore) as Hgrow.
    rewrite <- app_assoc in Hgrow. simpl app in Hgrow.
    rewrite line_width_snoc in Hgrow.
    destruct (stepG_nonempty st word Hpos) as [(F & L & N) | (F & L & N)].
    + replace (grp ++ word :: more) with ((grp ++ [word]) ++ more)
        by now rewrite <- app_assoc.
      rewrite <- N. apply IH.
      * intros E. now apply app_eq_nil in E as [_ E].
      * rewrite L. lra.
      * rewrite L, line_width_snoc, Hlw. reflexivity.
      * intros _. rewrite <- app_assoc. exact Hfit.
    + assert (Qle_bool (a_lineWidth st + spaceWidth + width word)
                       maxTextWidth = true)
        by (apply Qle_bool_iff; lra).
      congruence.
Qed.

Lemma run_first_word (word : MeasuredWord Q) :
  a_lineWidth (stepG calcAvgLineWidth_init word) = 0 + width word
  /\ a_linesNeeded (stepG calcAvgLineWidth_init word) = 1%nat.
Proof. split; reflexivity. Qed.

Lemma run_group (grp : list (MeasuredWord Q)) :
  grp <> [] ->
  Forall (fun word => 0 < width word) grp ->
  line_fits spaceWidth maxTextWidth grp ->
  a_linesNeeded (run grp calcAvgLineWidth_init) = 1%nat
  /\ 0 < a_lineWidth (run grp calcAvgLineWidth_init).
Proof.
  destruct grp as [|word more]; [congruence|]. intros _ Hpos Hfit.
  inversion Hpos as [|w m Hword Hmore]; subst. simpl fold_left.
  destruct (run_first_word word) as (L & N).
  destruct (@run_within_line more Hmore [word]
              (stepG calcAvgLineWidth_init word))
    as (Hn & Hp & _).
  - discriminate.
  - rewrite L. lra.
  - rewrite L, line_width_one. ring.
  - exact Hfit.
  - rewrite Hn. auto.
Qed.

Lemma breaking_bound (gs : list (list (MeasuredWord Q))) :
  gs <> [] ->
  Forall (fun grp => grp <> []) gs ->
  Forall (line_fits spaceWidth maxTextWidth) gs ->
  Forall (fun word => 0 < width word) (concat gs) ->
  (a_linesNeeded (run (concat gs) calcAvgLineWidth_init)
   <= List.length gs)%nat.
Proof.
  induction gs as [|grp gs IH]; [congruence|].
  intros _ Hne Hfit Hpos.
  inversion Hne as [|g1 g2 Hgrp Hne']; subst.
  inversion Hfit as [|g1 g2 Hgfit Hfit']; subst.
  simpl concat in *. apply Forall_app in Hpos as [Hgpos Hrestpos].
  destruct (run_group Hgrp Hgpos Hgfit) as (Hn & Hp).
  rewrite fold_left_app.
  destruct gs as [|grp' gs].
  - simpl. rewrite Hn. lia.
  - assert (Hgs : grp' :: gs <> []) by discriminate.
    specialize (IH Hgs Hne' Hfit' Hrestpos).
    destruct (concat (grp' :: gs)) as [|word rest] eqn:Hcat.
    + exfalso. inversion Hne' as [|g3 g4 Hg' _]; subst.
      simpl in Hcat. apply app_eq_nil in Hcat as [Hcat _]. congruence.
    + inversion Hrestpos as [|w r Hword Hrest]; subst.
      simpl fold_left in *.
      destruct (run_compare Hrest) as [Ha _].
      set (st := run grp calcAvgLineWidth_init) in *.
      assert (P1 : 0 < a_lineWidth (stepG calcAvgLineWidth_init word))
        by (simpl; lra).
      assert (P2 : 0 < a_lineWidth (stepG st word))
        by (apply stepG_positive; lra).
      specialize (Ha _ _ P1 P2).
      assert (a_linesNeeded (stepG st word) <= 2)%nat.
      { destruct (stepG_nonempty st word Hp) as [(_ & _ & N) | (_ & _ & N)];
          rewrite N, Hn; lia. }
      destruct (run_first_word word) as (_ & N1). rewrite N1 in Ha.
      destruct (stepG_nonempty st word Hp) as [(_ & _ & N) | (_ & L & N)].
      * rewrite N, Hn in Ha. simpl List.length in IH |- *. lia.
      * (* the two runs go on from the same line width *)
        destruct (run_compare Hrest) as [_ Hb].
        assert (Hle : a_lineWidth (stepG st word)
                      <= a_lineWidth (stepG calcAvgLineWidth_init word))
          by (rewrite L; simpl; lra).
        specialize (Hb _ _ P2 Hle). rewrite N, Hn, N1 in Hb.
        simpl List.length in IH |- *. lia.
Qed.

End Greedy.

Section GreedyLines.

Variables (spaceWidth maxTextWidth : Q).

Hypothesis spaceWidth_nonneg : 0 <= spaceWidth.

Local Abbreviation stepL := (calcAvgLineWidth_step spaceWidth maxTextWidth).

(** The lines pass 1 packs are themselves a breaking. *)
Lemma greedy_lines_step (seen : list (MeasuredWord Q)) (st : AvgState Q)
    (word : MeasuredWord Q) :
  0 < width word ->
  (exists done cur,
      concat done ++ cur = seen /\ cur <> []
      /\ Forall (fun grp => grp <> []) done
      /\ Forall (line_fits spaceWidth maxTextWidth) done
      /\ line_fits spaceWidth maxTextWidth cur
      /\ 0 < a_lineWidth st
      /\ a_lineWidth st == line_width spaceWidth cur
      /\ a_linesNeeded st = S (List.length done)) ->
  exists done cur,
    concat done ++ cur = seen ++ [word] /\ cur <> []
    /\ Forall (fun grp => grp <> []) done
    /\ Forall (line_fits spaceWidth maxTextWidth) done
    /\ line_fits spaceWidth maxTextWidth cur
    /\ 0 < a_lineWidth (stepL st word)
    /\ a_lineWidth (stepL st word) == line_width spaceWidth cur
    /\ a_linesNeeded (stepL st word) = S (List.length done).
Proof.
  intros Hword (done & cur & Hcat & Hne & Hdne & Hdfit & Hcfit & Hpos & Hlw
                & Hn).
  destruct (stepG_nonempty spaceWidth maxTextWidth st word Hpos)
    as [(F & L & N) | (F & L & N)].
  - exists done, (cur ++ [word]). apply Qle_bool_iff in F.
    repeat split; auto.
    + now rewrite app_assoc, Hcat.
    + intros E. now apply app_eq_nil in E as [_ E].
    + intros _. rewrite line_width_snoc, <- Hlw. lra.
    + rewrite L. lra.
    + rewrite L, line_width_snoc, Hlw. reflexivity.
    + now rewrite N.
  - exists (done ++ [cur]), [word].
    repeat split; auto.
    + rewrite concat_app. simpl. rewrite app_nil_r. now rewrite Hcat.
    + discriminate.
    + apply Forall_app. split; [assumption | now repeat constructor].
    + apply Forall_app. split; [assumption | now repeat constructor].
    + intros H. simpl in H. lia.
    + rewrite L. lra.
    + rewrite L, line_width_one. ring.
    + rewrite N, Hn, length_app. simpl. lia.
Qed.

Lemma greedy_lines_loop (rest : list (MeasuredWord Q)) :
  Forall (fun word => 0 < width word) rest ->
  forall seen st,
    (exists done cur,
        concat done ++ cur = seen /\ cur <> []
        /\ Forall (fun grp => grp <> []) done
        /\ Forall (line_fits spaceWidth maxTextWidth) done
        /\ line_fits spaceWidth maxTextWidth cur
        /\ 0 < a_lineWidth st
        /\ a_lineWidth st == line_width spaceWidth cur
        /\ a_linesNeeded st = S (List.length done)) ->
    exists gs,
      breaking spaceWidth maxTextWidth (seen ++ rest) gs
      /\ List.length gs = a_linesNeeded (fold_left stepL rest st).
Proof.
  induction 1 as [|word rest Hword Hrest IH]; intros seen st Hinv.
  - destruct Hinv as (done & cur & Hcat & Hne & Hdne & Hdfit & Hcfit & _ & _
                      & Hn).
    exists (done ++ [cur]). simpl. rewrite app_nil_r. split.
    + repeat split.
      * rewrite concat_app. simpl. now rewrite app_nil_r.
      * apply Forall_app. split; [assumption | now repeat constructor].
      * apply Forall_app. split; [assumption | now repeat constructor].
    + rewrite length_app, Hn. simpl. lia.
  - simpl. replace (seen ++ word :: rest) with ((seen ++ [word]) ++ rest)
      by now rewrite <- app_assoc.
    apply IH. now apply greedy_lines_step.
Qed.

Lemma greedy_lines (words : list (MeasuredWord Q)) :
  words <> [] ->
  Forall (fun word => 0 < width word) words ->
  exists gs,
    breaking spaceWidth maxTextWidth words gs
    /\ List.length gs = fst (calcAvgLineWidth words spaceWidth maxTextWidth).
Proof.
  destruct words as [|word rest]; [congruence|]. intros _ Hpos.
  inversion Hpos as [|w r Hword Hrest]; subst.
  unfold calcAvgLineWidth, calcAvgLineWidth_loop. simpl fst.
  simpl fold_left.
  apply (greedy_lines_loop Hrest (seen := [word])).
  exists [], [word]. repeat split; auto; try discriminate.
  - intros H. simpl in H. lia.
  - simpl. lra.
  - simpl a_lineWidth. rewrite line_width_one. ring.
Qed.

End GreedyLines.

Lemma length_concat_nonempty (A : Type) (gs : list (list A)) :
  Forall (fun grp => grp <> []) gs ->
  (List.length gs <= List.length (concat gs))%nat.
Proof.
  induction 1 as [|grp gs Hgrp Hgs IH]; [reflexivity|].
  simpl. rewrite length_app. destruct grp; [congruence|]. simpl. lia.
Qed.

Lemma linesNeeded_is_least_aux :
  forall (words : list (MeasuredWord Q)) (spaceWidth maxTextWidth : Q),
    words <> [] ->
    Forall (fun word => 0 < width word) words ->
    0 <= spaceWidth ->
    let linesNeeded := fst (calcAvgLineWidth words spaceWidth maxTextWidth) in
    (exists gs, breaking spaceWidth maxTextWidth words gs
                /\ List.length gs = linesNeeded)
    /\ (forall gs, breaking spaceWidth maxTextWidth words gs ->
                   (linesNeeded <= List.length gs)%nat).
Proof.
  intros words sp mx Hne Hpos Hsp linesNeeded. split.
  - now apply greedy_lines.
  - intros gs (Hcat & Hgne & Hfit). subst words.
    unfold linesNeeded, calcAvgLineWidth, calcAvgLineWidth_loop. simpl fst.
    apply breaking_bound; auto.
    intros ->. now apply Hne.
Qed.

(** X4. Pass 1 counts the least number of lines.  For words of positive
    width, some in-order breaking that respects [maxTextWidth] has exactly
    [linesNeeded] lines, and none has fewer. *)
Theorem linesNeeded_is_least :
  forall (words : list (MeasuredWord Q)) (spaceWidth maxTextWidth : Q),
    words <> [] ->
    Forall (fun word => 0 < width word) words ->
    0 <= spaceWidth ->
    let linesNeeded := fst (calcAvgLineWidth words spaceWidth maxTextWidth) in
    (exists gs, breaking spaceWidth maxTextWidth words gs
                /\ List.length gs = linesNeeded)
    /\ (forall gs, breaking spaceWidth maxTextWidth words gs ->
                   (linesNeeded <= List.length gs)%nat).
Proof. exact linesNeeded_is_least_aux. Qed.

Lemma balanced_line_count_aux :
  forall (words : list (MeasuredWord Q)) (spaceWidth maxTextWidth : Q)
         (linesNeeded : nat) (avgLineWidth : Q),
    words <> [] ->
    Forall (fun word => 0 < width word) words ->
    0 <= spaceWidth ->
    let result := createBalancedLines words spaceWidth linesNeeded
                                      avgLineWidth maxTextWidth in
    (fst (calcAvgLineWidth words spaceWidth maxTextWidth)
     <= List.length result <= List.length words)%nat.
Proof.
  intros words sp mx n avg Hne Hpos Hsp result.
  destruct (createBalancedLines_groups sp n avg mx words)
    as (Hlines & Hcat & Hgne).
  pose proof (line_groups_fit n avg mx Hsp Hpos) as Hfit.
  unfold result. rewrite Hlines, length_map. split.
  - apply (proj2 (@linesNeeded_is_least_aux words sp mx Hne Hpos Hsp)).
    repeat split; assumption.
  - rewrite <- Hcat at 2. now apply length_concat_nonempty.
Qed.

(** X5. The number of lines pass 2 returns.  It is never more than the
    number of words, and, for words of positive width, never less than the
    line count of pass 1, whatever line count and average pass 2 is given;
    so [balance] returns at least [linesNeeded] lines. *)
Theorem balanced_line_count :
  forall (words : list (MeasuredWord Q)) (spaceWidth maxTextWidth : Q)
         (linesNeeded : nat) (avgLineWidth : Q),
    words <> [] ->
    Forall (fun word => 0 < width word) words ->
    0 <= spaceWidth ->
    let result := createBalancedLines words spaceWidth linesNeeded
                                      avgLineWidth maxTextWidth in
    (fst (calcAvgLineWidth words spaceWidth maxTextWidth)
     <= List.length result <= List.length words)%nat.
Proof. exact balanced_line_count_aux. Qed.

(** ** The total and the average of pass 1 *)

Lemma sum_with_spaces_widths (spaceWidth : Q) (g : list (MeasuredWord Q)) :
  sum_with_spaces spaceWidth g
  == sum_widths g + count (List.length g) * spaceWidth.
Proof.
  induction g as [|word g IH].
  - unfold count. simpl. ring.
  - simpl. fold (sum_with_spaces spaceWidth g). fold (sum_widths g).
    rewrite IH, count_S. ring.
Qed.

(** The line count of pass 1 in every arithmetic: the first word never
    starts a second line, and every later word starts one line at most. *)
Section LineCount.

Context {num : Type} {arith : JsNumber num} {laws : JsNumberLaws num}.

Variables (spaceWidth maxTextWidth : num).

Local Abbreviation stepN := (calcAvgLineWidth_step spaceWidth maxTextWidth).

Lemma stepN_linesNeeded_le (st : AvgState num) (word : MeasuredWord num) :
  (a_linesNeeded (stepN st word) <= S (a_linesNeeded st))%nat.
Proof.
  unfold calcAvgLineWidth_step.
  destruct (negb (n_eqb (a_lineWidth st) n_zero));
    [destruct (n_leb _ maxTextWidth)|]; simpl; lia.
Qed.

Lemma loopN_linesNeeded_le (words : list (MeasuredWord num)) :
  forall st,
    (a_linesNeeded (fold_left stepN words st)
     <= a_linesNeeded st + List.length words)%nat.
Proof.
  induction words as [|word rest IH]; intros st; simpl; [lia|].
  specialize (IH (stepN st word)).
  pose proof (stepN_linesNeeded_le st word). lia.
Qed.

Lemma linesNeeded_at_most_words (words : list (MeasuredWord num)) :
  words <> [] ->
  (1 <= fst (calcAvgLineWidth words spaceWidth maxTextWidth)
   <= List.length words)%nat.
Proof.
  intros Hne. split.
  - apply calcAvgLineWidth_linesNeeded_positive.
  - destruct words as [|word rest]; [congruence|].
    unfold calcAvgLineWidth, calcAvgLineWidth_loop. cbn [fst fold_left].
    pose proof (loopN_linesNeeded_le rest
                  (stepN calcAvgLineWidth_init word)) as Hle.
    assert (Hfirst : a_linesNeeded (stepN calcAvgLineWidth_init word)
                     = 1%nat).
    { unfold calcAvgLineWidth_step, calcAvgLineWidth_init.
      cbn [a_lineWidth a_linesNeeded]. now rewrite zero_eqb_zero. }
    rewrite Hfirst in Hle. simpl List.length. lia.
Qed.

End LineCount.

(** X6. The line count and the total of pass 1.  In every arithmetic,
    binary64 included, [linesNeeded] is between 1 and the number of words.
    In exact arithmetic, for words of positive width, [totalTextWidth] is
    the sum of the widths plus one space for each word that does not start
    a line, and the average times [linesNeeded] is that total. *)
Theorem calcAvgLineWidth_total :
  (forall (num : Type) (arith : JsNumber num) (laws : JsNumberLaws num)
          (words : list (MeasuredWord num)) (spaceWidth maxTextWidth : num),
      words <> [] ->
      (1 <= fst (calcAvgLineWidth words spaceWidth maxTextWidth)
       <= List.length words)%nat)
  /\ (forall (words : list (MeasuredWord Q)) (spaceWidth maxTextWidth : Q),
         words <> [] ->
         Forall (fun word => 0 < width word) words ->
         0 <= spaceWidth ->
         let linesNeeded :=
           fst (calcAvgLineWidth words spaceWidth maxTextWidth) in
         let avgLineWidth :=
           snd (calcAvgLineWidth words spaceWidth maxTextWidth) in
         a_totalTextWidth
           (calcAvgLineWidth_loop words spaceWidth maxTextWidth)
         == sum_widths words
            + (count (List.length words) - count linesNeeded) * spaceWidth
         /\ count linesNeeded * avgLineWidth
            == sum_widths words
               + (count (List.length words) - count linesNeeded) * spaceWidth
         /\ 0 < avgLineWidth).
Proof.
  split.
  { intros num arith laws words sp mx Hne.
    now apply linesNeeded_at_most_words. }
  intros words sp mx Hne Hpos Hsp linesNeeded avg.
  destruct (pass1_total mx Hsp Hne Hpos) as [Hline Hnonneg Hcount Htotal].
  unfold linesNeeded, avg, calcAvgLineWidth.
  set (st := calcAvgLineWidth_loop words sp mx) in *. cbn [fst snd].
  assert (Hn : 0 < count (a_linesNeeded st)).
  { apply count_le in Hcount. change (count 1) with 1 in Hcount. lra. }
  assert (Havg : count (a_linesNeeded st)
                 * n_div (a_totalTextWidth st) (n_of_count (a_linesNeeded st))
                 == a_totalTextWidth st).
  { simpl. fold (count (a_linesNeeded st)). field. lra. }
  split; [|split].
  - rewrite Htotal, sum_with_spaces_widths. ring.
  - rewrite Havg, Htotal, sum_with_spaces_widths. ring.
  - assert (Htot : 0 < a_totalTextWidth st).
    { rewrite Htotal, sum_with_spaces_widths.
      destruct (@linesNeeded_is_least_aux words sp mx Hne Hpos Hsp)
        as ((gs & (Hcat & Hgne & _) & Hlen) & _).
      unfold calcAvgLineWidth in Hlen. simpl fst in Hlen. fold st in Hlen.
      assert (Hle : (a_linesNeeded st <= List.length words)%nat)
        by (rewrite <- Hlen, <- Hcat; now apply length_concat_nonempty).
      apply count_le in Hle.
      assert (0 < sum_widths words).
      { clear - Hne Hpos. destruct Hpos as [|w r Hw Hr]; [congruence|].
        simpl. fold (sum_widths r).
        assert (0 <= sum_widths r).
        { clear - Hr. induction Hr as [|x r Hx Hr IH]; simpl; [lra|].
          fold (sum_widths r). lra. }
        lra. }
      assert (0 <= (count (List.length words) - count (a_linesNeeded st)) * sp)
        by (apply Qmult_le_0_compat; lra).
      lra. }
    simpl. fold (count (a_linesNeeded st)).
    apply Qlt_shift_div_l; [exact Hn | lra].
Qed.

Section AverageBound.

Variables (spaceWidth maxTextWidth : Q).

Hypothesis spaceWidth_nonneg : 0 <= spaceWidth.

Local Abbreviation stepV := (calcAvgLineWidth_step spaceWidth maxTextWidth).

(** Every line of pass 1 is within [maxTextWidth], so the total is at most
    [linesNeeded] times [maxTextWidth]. *)
Lemma average_step (st : AvgState Q) (word : MeasuredWord Q) :
  0 < width word -> width word <= maxTextWidth ->
  0 <= a_lineWidth st <= maxTextWidth ->
  a_totalTextWidth st
  <= (count (a_linesNeeded st) - 1) * maxTextWidth + a_lineWidth st ->
  0 <= a_lineWidth (stepV st word) <= maxTextWidth
  /\ a_totalTextWidth (stepV st word)
     <= (count (a_linesNeeded (stepV st word)) - 1) * maxTextWidth
        + a_lineWidth (stepV st word).
Proof.
  intros Hpos Hw Hlw Htot.
  unfold calcAvgLineWidth_step. simpl n_eqb. simpl n_zero. simpl n_leb.
  simpl n_add.
  destruct (Qeq_bool (a_lineWidth st) 0) eqn:Hz; simpl negb; cbv iota.
  - apply Qeq_bool_iff in Hz. simpl. lra.
  - destruct (Qle_bool (a_lineWidth st + spaceWidth + width word)
                       maxTextWidth) eqn:F; simpl.
    + apply Qle_bool_iff in F. lra.
    + rewrite count_S. lra.
Qed.

Lemma average_loop (words : list (MeasuredWord Q)) :
  Forall (fun word => 0 < width word /\ width word <= maxTextWidth) words ->
  forall st,
    0 <= a_lineWidth st <= maxTextWidth ->
    a_totalTextWidth st
    <= (count (a_linesNeeded st) - 1) * maxTextWidth + a_lineWidth st ->
    a_totalTextWidth (fold_left stepV words st)
    <= count (a_linesNeeded (fold_left stepV words st)) * maxTextWidth.
Proof.
  induction 1 as [|word rest [Hpos Hw] Hrest IH]; intros st Hlw Htot.
  - simpl. lra.
  - simpl. destruct (average_step st word Hpos Hw Hlw Htot) as (Hlw' & Htot').
    now apply IH.
Qed.

End AverageBound.

(** X7. In exact arithmetic the average line width of pass 1 is a target
    below the limit.  When every word has a positive width and fits in
    [maxTextWidth] by itself, the average is at most [maxTextWidth]. *)
Theorem average_within_maxTextWidth :
  forall (words : list (MeasuredWord Q)) (spaceWidth maxTextWidth : Q),
    words <> [] ->
    Forall (fun word => 0 < width word /\ width word <= maxTextWidth) words ->
    0 <= spaceWidth ->
    snd (calcAvgLineWidth words spaceWidth maxTextWidth) <= maxTextWidth.
Proof.
  intros words sp mx Hne Hwords Hsp.
  assert (Hmx : 0 <= mx).
  { destruct Hwords as [|w r [Hp Hw] _]; [congruence | lra]. }
  pose proof (@average_loop sp mx Hsp words Hwords calcAvgLineWidth_init) as Htot.
  unfold calcAvgLineWidth. fold (calcAvgLineWidth_loop words sp mx) in Htot.
  set (st := calcAvgLineWidth_loop words sp mx) in *. cbn [snd].
  assert (Hcount : (1 <= a_linesNeeded st)%nat)
    by apply (loop1_linesNeeded sp mx words calcAvgLineWidth_init).
  assert (Hn : 0 < count (a_linesNeeded st)).
  { apply count_le in Hcount. change (count 1) with 1 in Hcount. lra. }
  simpl. fold (count (a_linesNeeded st)).
  apply Qle_shift_div_r; [exact Hn|].
  rewrite Qmult_comm. apply Htot.
  - simpl. lra.
  - simpl. change (count 1) with 1. lra.
Qed.

(** ** Captions of one line *)

Section OneLine.

Variables (spaceWidth maxTextWidth avgLineWidth : Q).

Hypothesis spaceWidth_nonneg : 0 <= spaceWidth.

(** With [linesNeeded = 1] and words that fit together, pass 2 never
    clears the line. *)
Lemma one_line_trace (rest : list (MeasuredWord Q)) :
  Forall (fun word => 0 < width word) rest ->
  forall seen st g,
    Tracks seen st g ->
    LinesFit spaceWidth maxTextWidth st g ->
    closed g = [] ->
    lastLine st = true ->
    line_fits spaceWidth maxTextWidth (seen ++ rest) ->
    let r := trace spaceWidth 1 avgLineWidth maxTextWidth st g rest in
    closed (snd r) = [] /\ Tracks (seen ++ rest) (fst r) (snd r).
Proof.
  induction 1 as [|word rest Hword Hrest IH];
    intros seen st g Htr Hfits Hclosed Hlast Hall.
  - simpl. rewrite app_nil_r. auto.
  - assert (Hcl : closes spaceWidth maxTextWidth st word = false).
    { unfold closes. rewrite Hlast. simpl negb at 2. rewrite andb_false_l.
      rewrite orb_false_r.
      destruct (n_eqb (lineWidth st) n_zero) eqn:Hz; [reflexivity|].
      simpl negb. rewrite andb_true_l.
      assert (Hcur : current g <> []).
      { intros E. rewrite (f_empty Hfits E) in Hz. discriminate. }
      assert (Hseen : current g = seen).
      { rewrite <- (tr_seen Htr), Hclosed. reflexivity. }
      pose proof (f_width Hfits Hcur) as Hlw. rewrite Hseen in Hlw, Hcur.
      assert (Hlen : (2 <= List.length (seen ++ word :: rest))%nat).
      { rewrite length_app. destruct seen; [congruence|]. simpl. lia. }
      specialize (Hall Hlen).
      pose proof (line_width_grows spaceWidth_nonneg (seen ++ [word]) Hrest)
        as Hgrow.
      rewrite <- app_assoc in Hgrow. simpl app in Hgrow.
      rewrite line_width_snoc in Hgrow.
      unfold hardLimit. simpl. apply negb_false_iff, Qle_bool_iff. lra. }
    simpl trace.
    replace (seen ++ word :: rest) with ((seen ++ [word]) ++ rest)
      by now rewrite <- app_assoc.
    apply IH.
    + now apply tracks_step.
    + now apply fits_step.
    + unfold groups_step. rewrite Hcl. exact Hclosed.
    + rewrite step_lastLine, Hcl. exact Hlast.
    + now rewrite <- app_assoc.
Qed.

Lemma one_line_groups (words : list (MeasuredWord Q)) :
  words <> [] ->
  Forall (fun word => 0 < width word) words ->
  line_fits spaceWidth maxTextWidth words ->
  line_groups words spaceWidth 1 avgLineWidth maxTextWidth = [words].
Proof.
  intros Hne Hpos Hfit. unfold line_groups.
  destruct (@one_line_trace words Hpos []
              (createBalancedLines_init 1 avgLineWidth)
              {| closed := []; current := [] |})
    as (Hclosed & Htr); auto.
  - apply tracks_init.
  - apply fits_init.
  - simpl app in Htr. unfold all_groups. rewrite Hclosed.
    pose proof (tr_seen Htr) as Hseen. rewrite Hclosed in Hseen.
    simpl in Hseen. rewrite Hseen.
    destruct words; [congruence | reflexivity].
Qed.

End OneLine.

(** X8. In exact arithmetic a caption stays on one line exactly when it
    fits.  For words of positive width, pass 1 counts one line, and
    [balance] returns the single line of all the words, if and only if the
    widths of the words and the spaces between them are within
    [maxTextWidth] (or there is one word). *)
Theorem one_line_iff_fits :
  forall (words : list (MeasuredWord Q)) (spaceWidth maxTextWidth : Q),
    words <> [] ->
    Forall (fun word => 0 < width word) words ->
    0 <= spaceWidth ->
    (line_fits spaceWidth maxTextWidth words
     <-> fst (calcAvgLineWidth words spaceWidth maxTextWidth) = 1%nat)
    /\ (line_fits spaceWidth maxTextWidth words
        <-> balance words spaceWidth maxTextWidth
            = Normal [join SPACE (map (@text Q) words)]).
Proof.
  intros words sp mx Hne Hpos Hsp.
  destruct (@linesNeeded_is_least_aux words sp mx Hne Hpos Hsp)
    as ((gs & (Hcat & Hgne & Hgfit) & Hlen) & Hleast).
  pose proof (calcAvgLineWidth_linesNeeded_positive sp mx words) as Hone.
  assert (Hfirst : line_fits sp mx words
                   <-> fst (calcAvgLineWidth words sp mx) = 1%nat).
  { split.
    - intros Hfit.
      assert (Hb : breaking sp mx words [words]).
      { repeat split.
        - simpl. now rewrite app_nil_r.
        - now repeat constructor.
        - now repeat constructor. }
      specialize (Hleast _ Hb). cbv zeta in Hleast.
      cbn [List.length] in Hleast. lia.
    - intros E. rewrite E in Hlen.
      destruct gs as [|grp [|grp' gs]]; simpl in Hlen; try lia.
      simpl in Hcat. rewrite app_nil_r in Hcat. subst grp.
      now inversion Hgfit. }
  split; [exact Hfirst|]. rewrite balance_returns. split.
  - intros Hfit. rewrite (proj1 Hfirst Hfit). f_equal.
    destruct (createBalancedLines_groups sp 1
                (snd (calcAvgLineWidth words sp mx)) mx words)
      as (Hlines & _).
    rewrite Hlines, (one_line_groups _ Hsp Hne Hpos Hfit). reflexivity.
  - intros E. apply Hfirst.
    assert (E' : createBalancedLines words sp
                   (fst (calcAvgLineWidth words sp mx))
                   (snd (calcAvgLineWidth words sp mx)) mx
                 = [join SPACE (map (@text Q) words)]) by congruence.
    pose proof (@balanced_line_count_aux words sp mx
                  (fst (calcAvgLineWidth words sp mx))
                  (snd (calcAvgLineWidth words sp mx)) Hne Hpos Hsp)
      as [Hlow _].
    rewrite E' in Hlow. cbn [List.length] in Hlow. lia.
Qed.

(** ** The hard limit on the numbers the loop compares *)

Section RunningWidth.

Context {num : Type} {arith : JsNumber num} {laws : JsNumberLaws num}.

Variables (spaceWidth : num) (linesNeeded : nat)
          (avgLineWidth maxTextWidth : num).

Local Abbreviation stepW :=
  (createBalancedLines_step spaceWidth linesNeeded avgLineWidth maxTextWidth).
Local Abbreviation gstepW := (groups_step spaceWidth maxTextWidth).
Local Abbreviation within := (appended_within spaceWidth maxTextWidth).

Lemma running_width_snoc (g : list (MeasuredWord num))
    (word : MeasuredWord num) :
  running_width spaceWidth (g ++ [word])
  = if n_eqb (running_width spaceWidth g) n_zero
    then n_add (running_width spaceWidth g) (width word)
    else n_add (running_width spaceWidth g) (n_add (width word) spaceWidth).
Proof. unfold running_width. now rewrite fold_left_app. Qed.

Lemma within_nil : within [].
Proof. intros pre word post E. now destruct pre. Qed.

Lemma within_one (word : MeasuredWord num) : within [word].
Proof.
  intros pre w post E Hz. destruct pre as [|x pre].
  - unfold running_width in Hz. simpl in Hz. rewrite zero_eqb_zero in Hz.
    discriminate.
  - injection E as _ E. now destruct pre.
Qed.

Lemma within_snoc (g : list (MeasuredWord num)) (word : MeasuredWord num) :
  within g ->
  (n_eqb (running_width spaceWidth g) n_zero = false ->
   n_gtb (running_width spaceWidth (g ++ [word])) maxTextWidth = false) ->
  within (g ++ [word]).
Proof.
  intros Hg Hnew pre w post E Hz.
  destruct post as [|x post _] using rev_ind.
  - apply app_inj_tail in E. destruct E as [-> ->]. now apply Hnew.
  - change (pre ++ w :: post ++ [x]) with (pre ++ (w :: post) ++ [x]) in E.
    rewrite app_assoc in E. apply app_inj_tail in E. destruct E as [E _].
    now apply (Hg pre w post).
Qed.

Lemma within_init :
  WithinLimit spaceWidth maxTextWidth
              (createBalancedLines_init linesNeeded avgLineWidth)
              {| closed := []; current := [] |}.
Proof. split; simpl; [reflexivity | constructor | apply within_nil]. Qed.

Lemma within_step (st : LineState num) (g : Groups num)
    (word : MeasuredWord num) :
  WithinLimit spaceWidth maxTextWidth st g ->
  WithinLimit spaceWidth maxTextWidth (stepW st word) (gstepW st g word).
Proof.
  intros [Hw Hclosed Hcur]. unfold groups_step.
  destruct (closes spaceWidth maxTextWidth st word) eqn:Hc;
    split; cbn [closed current].
  - rewrite step_lineWidth, Hc. unfold running_width. simpl.
    now rewrite zero_eqb_zero.
  - apply Forall_app. split; [exact Hclosed | now constructor].
  - apply within_one.
  - rewrite step_lineWidth, Hc, running_width_snoc, <- Hw. reflexivity.
  - exact Hclosed.
  - apply within_snoc; [exact Hcur|]. rewrite <- Hw. intros Hz.
    rewrite running_width_snoc, <- Hw, Hz.
    unfold closes in Hc. rewrite Hz in Hc. simpl in Hc.
    apply orb_false_iff in Hc. exact (proj1 Hc).
Qed.

Lemma within_trace (words : list (MeasuredWord num)) :
  forall st g,
    WithinLimit spaceWidth maxTextWidth st g ->
    WithinLimit spaceWidth maxTextWidth
      (fst (trace spaceWidth linesNeeded avgLineWidth maxTextWidth
                  st g words))
      (snd (trace spaceWidth linesNeeded avgLineWidth maxTextWidth
                  st g words)).
Proof.
  induction words as [|word rest IH]; intros st g Hw; [exact Hw|].
  simpl. apply IH. now apply within_step.
Qed.

Lemma line_groups_within (words : list (MeasuredWord num)) :
  Forall within
         (line_groups words spaceWidth linesNeeded avgLineWidth maxTextWidth).
Proof.
  unfold line_groups.
  destruct (within_trace words within_init) as [_ Hclosed Hcur].
  unfold all_groups.
  destruct (current _); [exact Hclosed|].
  apply Forall_app. split; [exact Hclosed | now constructor].
Qed.

End RunningWidth.

(** In exact arithmetic and for words of positive width the number the
    loop accumulates is the width of the line: the widths of its words and
    the spaces between them. *)
Lemma running_width_exact (spaceWidth : Q) (g : list (MeasuredWord Q)) :
  0 <= spaceWidth ->
  Forall (fun word => 0 < width word) g ->
  g <> [] ->
  running_width spaceWidth g == line_width spaceWidth g
  /\ 0 < running_width spaceWidth g.
Proof.
  intros Hsp. induction g as [|word g IH] using rev_ind; [congruence|].
  intros Hpos _. apply Forall_app in Hpos. destruct Hpos as [Hg Hword].
  inversion Hword as [|w r Hw _]; subst.
  rewrite running_width_snoc.
  destruct g as [|x g].
  - unfold running_width. simpl. rewrite line_width_one. split; lra.
  - destruct IH as [E P]; [exact Hg | discriminate |].
    destruct (n_eqb (running_width spaceWidth (x :: g)) n_zero) eqn:Hz.
    + apply Qeq_bool_iff in Hz. simpl n_zero in Hz. lra.
    + rewrite line_width_snoc by discriminate. simpl n_add. split; lra.
Qed.

(** X9. The hard limit.  In every arithmetic, binary64 included, each word
    appended to a line whose width is not 0 leaves the width the loop has
    accumulated, which is the number it compares, not greater than
    [maxTextWidth].  In exact arithmetic and for words of positive width
    that number is the width of the line, and when no word is wider than
    [maxTextWidth], no line is: every line pass 2 returns, of one word or
    more, has its widths and spaces within [maxTextWidth], whatever line
    count and average pass 2 is given. *)
Theorem balanced_lines_within_limit :
  (forall (num : Type) (arith : JsNumber num) (laws : JsNumberLaws num)
          (words : list (MeasuredWord num)) (spaceWidth maxTextWidth : num)
          (linesNeeded : nat) (avgLineWidth : num),
      Forall (appended_within spaceWidth maxTextWidth)
             (line_groups words spaceWidth linesNeeded avgLineWidth
                          maxTextWidth))
  /\ (forall (words : list (MeasuredWord Q)) (spaceWidth maxTextWidth : Q)
             (linesNeeded : nat) (avgLineWidth : Q),
         Forall (fun word => 0 < width word /\ width word <= maxTextWidth)
                words ->
         0 <= spaceWidth ->
         let gs := line_groups words spaceWidth linesNeeded avgLineWidth
                               maxTextWidth in
         createBalancedLines words spaceWidth linesNeeded avgLineWidth
                             maxTextWidth = map render gs
         /\ Forall (fun grp => running_width spaceWidth grp
                               == line_width spaceWidth grp) gs
         /\ Forall (fun grp => line_width spaceWidth grp <= maxTextWidth) gs).
Proof.
  split.
  { intros num arith laws words sp mx n avg. apply line_groups_within. }
  intros words sp mx n avg Hwords Hsp gs.
  assert (Hpos : Forall (fun word : MeasuredWord Q => 0 < width word) words).
  { eapply Forall_impl; [|exact Hwords]. now intros w [H _]. }
  destruct (createBalancedLines_groups sp n avg mx words)
    as (Hlines & Hcat & Hgne).
  pose proof (line_groups_fit n avg mx Hsp Hpos) as Hfit.
  fold gs in Hlines, Hcat, Hgne, Hfit.
  split; [exact Hlines|]. split.
  { rewrite Forall_forall in *. intros grp Hin.
    apply running_width_exact; [exact Hsp | | now apply Hgne].
    rewrite Forall_forall. intros w Hw. apply Hpos. rewrite <- Hcat.
    apply in_concat. exists grp. now split. }
  rewrite Forall_forall in *. intros grp Hin.
  specialize (Hfit grp Hin). specialize (Hgne grp Hin).
  destruct grp as [|w [|w' grp]]; [congruence| |].
  - rewrite line_width_one. apply Hwords. rewrite <- Hcat.
    apply in_concat. exists [w]. split; [exact Hin | now left].
  - apply Hfit. simpl. lia.
Qed.

(** ** Rounded sums

    The four properties above are about exact arithmetic.  binary64 is the
    same arithmetic as long as its sums and quotients are binary64 numbers;
    where one is rounded, the code can leave the property by the last bit.
    With widths 0.4 and 0.7, a space of 0.1 and [maxTextWidth = 1.2] the
    code returns the line "a b", whose widths and space add up to more than
    1.2 (the same numbers in exact arithmetic give two lines).  Three words
    of width 0.1 in a column of 0.1 have an average above 0.1.  With widths
    0.3 and 0.1, a space of 0.2 and [maxTextWidth = 0.6] pass 1 counts one
    line and pass 2 returns two: the passes add the space in a different
    order. *)
Example binary64_rounds_the_sums :
  let d := decimal64 in
  let v := fun q : Q => float_value (d q) in
  let m := fun (num : Type) (s : string) (w : num) =>
             {| text := lit s; width := w |} in
  let a := "a"%string in
  let b := "b"%string in
  let c := "c"%string in
  (balance [m _ a (d (4 # 10)); m _ b (d (7 # 10))] (d (1 # 10)) (d (12 # 10))
   = Normal [lit "a b"]
   /\ v (12 # 10) < v (4 # 10) + v (7 # 10) + v (1 # 10)
   /\ balance [m _ a (v (4 # 10)); m _ b (v (7 # 10))] (v (1 # 10))
              (v (12 # 10))
      = Normal [lit "a"; lit "b"])
  /\ v (1 # 10)
     < float_value
         (snd (calcAvgLineWidth
                 [m _ a (d (1 # 10)); m _ b (d (1 # 10)); m _ c (d (1 # 10))]
                 (d (1 # 10)) (d (1 # 10))))
  /\ (fst (calcAvgLineWidth [m _ a (d (3 # 10)); m _ b (d (1 # 10))]
                            (d (2 # 10)) (d (6 # 10)))
      = 1%nat
      /\ balance [m _ a (d (3 # 10)); m _ b (d (1 # 10))]
                 (d (2 # 10)) (d (6 # 10))
         = Normal [lit "a"; lit "b"]).
Proof.
  cbv zeta. split; [split; [|split] | split; [|split]];
    vm_compute; reflexivity.
Qed.

(** ** Where the lines are drawn *)

Lemma length_minus_1_cons (A : Type) (x : A) (l : list A) :
  length_minus_1 (x :: l) == length_minus_1 l + 1.
Proof.
  unfold length_minus_1. simpl List.length.
  rewrite Nat2Z.inj_succ, <- Z.add_1_r, inject_Z_plus.
  change (inject_Z 1) with 1. ring.
Qed.

Lemma stacked_within_lower (top top' bottom : Q) (rects : list (Q * Q)) :
  rects <> [] -> top' <= top ->
  stacked_within top bottom rects -> stacked_within top' bottom rects.
Proof.
  destruct rects as [|[y h] rest]; [congruence|]. simpl.
  intros _ Hle [Hy Hrest]. split; [lra | exact Hrest].
Qed.

Lemma placeLines_texts (num : Type) (arith : JsNumber num) (math : JsMath num)
    (lines : list (Line num)) :
  forall finalImageWidth lineSpacing textY,
    map (fun p => fst (fst p))
        (Canvas.placeLines finalImageWidth lineSpacing textY lines)
    = map (@l_text num) lines.
Proof.
  induction lines as [|line rest IH]; intros W ls y; [reflexivity|].
  simpl. now rewrite IH.
Qed.

Lemma placeLines_stacked (lines : list (Line Q)) :
  forall finalImageWidth lineSpacing textY bottom,
    lines <> [] ->
    0 <= lineSpacing ->
    Forall (fun line => 0 <= l_height line) lines ->
    textY + sum_heights lines + length_minus_1 lines * lineSpacing
    <= bottom ->
    stacked_within textY bottom
      (line_rects lines
         (Canvas.placeLines finalImageWidth lineSpacing textY lines)).
Proof.
  induction lines as [|line rest IH]; [congruence|].
  intros W ls y bottom _ Hls Hh Hfit.
  inversion Hh as [|l r Hline Hrest]; subst.
  rewrite length_minus_1_cons in Hfit. simpl sum_heights in Hfit.
  fold (sum_heights rest) in Hfit.
  unfold line_rects. simpl. split; [lra|].
  destruct rest as [|line' rest].
  - simpl. unfold length_minus_1 in Hfit. simpl in Hfit.
    change (inject_Z 0) with 0 in Hfit. lra.
  - apply (stacked_within_lower (top := y + (l_height line + ls)));
      [discriminate | lra |].
    apply IH; auto; [discriminate|]. lra.
Qed.

Lemma placeLines_centred (lines : list (Line Q)) :
  forall finalImageWidth lineSpacing textY,
    Forall (fun lp =>
              snd (fst (snd lp)) + l_width (fst lp) / 2
              == finalImageWidth / 2)
           (combine lines
              (Canvas.placeLines finalImageWidth lineSpacing textY lines)).
Proof.
  induction lines as [|line rest IH]; intros W ls y; [constructor|].
  simpl. constructor; [simpl; field | apply IH].
Qed.

(** X10. Where the lines are drawn.  In every arithmetic, binary64
    included, the lines are drawn once each and in order.  In exact
    arithmetic they lie one under the other, below the image and inside
    the canvas, and each is centred. *)
Theorem caption_lines_are_stacked :
  (forall (num : Type) (arith : JsNumber num) (math : JsMath num)
          (opts : Canvas.Opts num) (image : Canvas.Image num)
          (lines : list (Line num)),
      map (fun p => fst (fst p))
          (Canvas.linePositions (Canvas.layout opts image lines))
      = map (@l_text num) lines)
  /\ (forall (opts : Canvas.Opts Q) (image : Canvas.Image Q)
             (lines : list (Line Q)),
         lines <> [] ->
         0 <= Canvas.lineSpacing opts ->
         Forall (fun line => 0 <= l_height line) lines ->
         let plan := Canvas.layout opts image lines in
         let imageBottom :=
           Canvas.outerPadding opts
           + inject_Z (Canvas.comicHeight opts image) in
         stacked_within
           (imageBottom + Canvas.captionMarginTop opts)
           (snd (Canvas.finalCanvas plan) - Canvas.outerPadding opts)
           (line_rects lines (Canvas.linePositions plan))
         /\ Forall (fun lp =>
                      snd (fst (snd lp)) + l_width (fst lp) / 2
                      == fst (Canvas.finalCanvas plan) / 2)
                   (combine lines (Canvas.linePositions plan))).
Proof.
  split.
  { intros num arith math opts image lines. unfold Canvas.layout.
    cbn [Canvas.linePositions]. apply placeLines_texts. }
  intros opts image lines Hne Hls Hh plan imageBottom.
  unfold plan, Canvas.layout.
  cbn [Canvas.linePositions Canvas.finalCanvas fst snd].
  split; [|apply placeLines_centred].
  apply placeLines_stacked; auto.
  unfold Canvas.calcCaptionHeight, n_ceil.
  pose proof (Qle_ceiling
                (captionExtent (Canvas.lineSpacing opts)
                               (Canvas.captionMarginTop opts) lines))
    as Hceil.
  pose proof (exact_captionExtent (Canvas.lineSpacing opts)
                                  (Canvas.captionMarginTop opts) lines)
    as Hext.
  set (extent := captionExtent (Canvas.lineSpacing opts)
                               (Canvas.captionMarginTop opts) lines) in *.
  simpl n_val. simpl n_add. simpl n_mul. simpl n_of_Z. simpl n_of_count.
  change (inject_Z 2) with 2.
  lra.
Qed.

Lemma measureLine_texts (num : Type) (arith : JsNumber num)
    (measureText : jsstring -> Canvas.TextMetrics num)
    (texts : list jsstring) :
  map (@l_text num) (map (Canvas.measureLine measureText) texts) = texts.
Proof. rewrite map_map. simpl. apply map_id. Qed.

Lemma caption_draws_every_word_aux (num : Type) (arith : JsNumber num)
    (math : JsMath num) (laws : JsNumberLaws num)
    (measureText : jsstring -> Canvas.TextMetrics num)
    (image : Canvas.Image num) (caption : jsstring) (opts : Canvas.Opts num) :
  let plan := Canvas._caption measureText image caption opts in
  let drawn := map (fun p => fst (fst p)) (Canvas.linePositions plan) in
  drawn <> []
  /\ split_ws (join SPACE drawn) = split_ws caption.
Proof.
  intros plan drawn.
  unfold drawn, plan, Canvas._caption.
  destruct (calcAvgLineWidth (Canvas.measureWords measureText caption)
              (Canvas.m_width (measureText SPACE))
              (Canvas.maxTextWidth opts image)) as [n avg].
  unfold Canvas.layout. cbn [Canvas.linePositions].
  rewrite placeLines_texts, measureLine_texts.
  destruct (@caption_lines_round_trip num arith laws measureText caption
              (Canvas.m_width (measureText SPACE)) n avg
              (Canvas.maxTextWidth opts image)) as (_ & Hne & Hsplit).
  split; assumption.
Qed.

(** X11. [_caption] draws every word of the caption once, in order, on at
    least one line: in exact arithmetic and in binary64. *)
Theorem caption_draws_every_word :
  let draws_every_word :=
    fun (num : Type) (arith : JsNumber num) (math : JsMath num) =>
      forall (measureText : jsstring -> Canvas.TextMetrics num)
             (image : Canvas.Image num) (caption : jsstring)
             (opts : Canvas.Opts num),
        let plan := Canvas._caption measureText image caption opts in
        let drawn := map (fun p => fst (fst p)) (Canvas.linePositions plan) in
        drawn <> []
        /\ split_ws (join SPACE drawn) = split_ws caption in
  draws_every_word Q exact exact_math
  /\ draws_every_word PrimFloat.float binary64 binary64_math.
Proof.
  split; intros measureText image caption opts.
  - exact (@caption_draws_every_word_aux Q exact exact_math exact_laws
             measureText image caption opts).
  - exact (@caption_draws_every_word_aux PrimFloat.float binary64
             binary64_math binary64_laws measureText image caption opts).
Qed.

(** ** The image and the square canvas *)

Lemma squareAdjust_width_ge (canvas : SquareCanvas.CanvasSize) :
  (SquareCanvas.canvas_width canvas
   <= SquareCanvas.canvas_width (SquareCanvas.squareAdjust canvas))%Z.
Proof.
  unfold SquareCanvas.squareAdjust.
  destruct (SquareCanvas.canvas_width canvas
            <? SquareCanvas.canvas_height canvas)%Z eqn:Hlt; simpl; [|lia].
  destruct (js_le _ _); simpl; [|lia].
  apply Z.ltb_lt in Hlt. lia.
Qed.

Lemma Qtrunc_comp (x y : Q) : x == y -> Qtrunc x = Qtrunc y.
Proof.
  intros E. rewrite !Qtrunc_floor_ceiling.
  destruct (Qle_bool 0 x) eqn:A; destruct (Qle_bool 0 y) eqn:B.
  - now apply Qfloor_comp.
  - apply Qle_bool_iff in A. rewrite E in A. apply Qle_bool_iff in A.
    congruence.
  - apply Qle_bool_iff in B. rewrite <- E in B. apply Qle_bool_iff in B.
    congruence.
  - now apply Qceiling_comp.
Qed.

Lemma Qtrunc_half (a : Z) :
  (0 <= a)%Z -> Qtrunc (inject_Z a / 2) = (a / 2)%Z.
Proof.
  intros Ha. rewrite Qtrunc_floor_ceiling.
  assert (H0 : Qle_bool 0 (inject_Z a / 2) = true).
  { apply Qle_bool_iff. apply Qle_shift_div_l; [reflexivity|].
    rewrite Qmult_0_l. change 0 with (inject_Z 0). rewrite <- Zle_Qle. lia. }
  rewrite H0. change 2 with (inject_Z 2). symmetry. apply Zdiv_Qdiv.
Qed.

(** X12. The image is drawn centred in the final canvas and inside the
    padding, also when the canvas was widened to a square; in every
    arithmetic and whatever the caption height. *)
Theorem image_stays_inside_padding :
  forall (num : Type) (arith : JsNumber num) (math : JsMath num)
         (comicWidth comicHeight outerPadding : Z)
         (lineSpacing captionMarginTop : num) (lines : list (Line num)),
    let canvas := SquareLayout.finalCanvas comicWidth comicHeight outerPadding
                    lineSpacing captionMarginTop lines in
    let x := SquareLayout.imageX canvas comicWidth in
    (0 <= outerPadding)%Z ->
    (SquareCanvas.canvas_width canvas - comicWidth < 2 ^ 32)%Z ->
    (outerPadding <= x)%Z
    /\ (x + comicWidth <= SquareCanvas.canvas_width canvas - outerPadding)%Z
    /\ (0 <= (SquareCanvas.canvas_width canvas - (x + comicWidth)) - x <= 1)%Z.
Proof.
  intros num arith math cw ch P ls mt lines canvas x HP Hrange.
  assert (Hw : (cw + 2 * P <= SquareCanvas.canvas_width canvas)%Z).
  { unfold canvas, SquareLayout.finalCanvas, SquareCanvas.resize.
    etransitivity; [|apply squareAdjust_width_ge]. simpl. lia. }
  set (W := SquareCanvas.canvas_width canvas) in *.
  assert (Hx : x = ((W - cw) / 2)%Z).
  { unfold x, SquareLayout.imageX. fold W.
    assert (E : (inject_Z W - inject_Z cw) / 2 == inject_Z (W - cw) / 2).
    { unfold Z.sub. rewrite inject_Z_plus, inject_Z_opp. reflexivity. }
    assert (Ht : Qtrunc ((inject_Z W - inject_Z cw) / 2) = ((W - cw) / 2)%Z).
    { rewrite <- Qtrunc_half by lia. now apply Qtrunc_comp. }
    rewrite to_int32_in_range; rewrite Ht; [reflexivity|].
    unfold int32_range. Z.div_mod_to_equations. lia. }
  rewrite Hx. Z.div_mod_to_equations. lia.
Qed.

(** X13. Adjusting twice is adjusting once, and the adjusted canvas is never
    a portrait with a ratio of at most 1.75. *)
Theorem squareAdjust_settles :
  forall canvas : SquareCanvas.CanvasSize,
    let canvas' := SquareCanvas.squareAdjust canvas in
    let w := SquareCanvas.canvas_width canvas' in
    let h := SquareCanvas.canvas_height canvas' in
    SquareCanvas.squareAdjust canvas' = canvas'
    /\ ~ ((w < h)%Z /\ w <> 0%Z /\ inject_Z h / inject_Z w <= 175 # 100).
Proof.
  intros [w h]. cbn zeta.
  pose proof (squareAdjust_test w h) as Htest.
  assert (Hcase :
            (SquareCanvas.squareAdjust
               {| SquareCanvas.canvas_width := w;
                  SquareCanvas.canvas_height := h |}
             = {| SquareCanvas.canvas_width := h;
                  SquareCanvas.canvas_height := h |})
            \/ (SquareCanvas.squareAdjust
                  {| SquareCanvas.canvas_width := w;
                     SquareCanvas.canvas_height := h |}
                = {| SquareCanvas.canvas_width := w;
                     SquareCanvas.canvas_height := h |}
                /\ (w <? h)%Z
                   && js_le (js_div (inject_Z h) (inject_Z w)) (175 # 100)
                   = false)).
  { unfold SquareCanvas.squareAdjust.
    cbn [SquareCanvas.canvas_width SquareCanvas.canvas_height].
    destruct ((w <? h)%Z
              && js_le (js_div (inject_Z h) (inject_Z w)) (175 # 100));
      [now left | now right]. }
  destruct Hcase as [E | [E Hb]]; rewrite E;
    cbn [SquareCanvas.canvas_width SquareCanvas.canvas_height].
  - split.
    + unfold SquareCanvas.squareAdjust.
      cbn [SquareCanvas.canvas_width SquareCanvas.canvas_height].
      now rewrite Z.ltb_irrefl.
    + intros (Hlt & _). lia.
  - split; [exact E|].
    intros H. apply Htest in H. congruence.
Qed.

(** ** Fetching a comic and registering the font *)

(** X15. [fetchRandomComicImage] of the class [YorkerBot] never tries
    again.  It calls [tryFetchComic] once: a comic is returned, an error
    other than [TryAgain] is thrown on, and after a [TryAgain] the update
    expression [++retries] of the loop, whose variable is declared nowhere,
    throws a [ReferenceError].  One round of the loop is all it takes. *)
Theorem fetchRandomComicImage_never_retries :
  forall (A : Type) (tryFetchComic : nat -> Fetch.Outcome A) (fuel : nat),
    Fetch.fetchRandomComicImage (S fuel) tryFetchComic
    = Some (match tryFetchComic 0%nat with
            | Fetch.Returned comic => Fetch.Returned (Some comic)
            | Fetch.Threw Fetch.TryAgain =>
                Fetch.Threw (Fetch.ReferenceError "retries")
            | Fetch.Threw e => Fetch.Threw e
            end, 1%nat).
Proof.
  intros A tryFetchComic fuel.
  unfold Fetch.fetchRandomComicImage. simpl.
  destruct (tryFetchComic 0%nat) as [comic | [ | name | code]]; reflexivity.
Qed.

Lemma registerFonts_calls_registered (n : nat) :
  Fetch.registerFonts_calls n true = ([], true).
Proof.
  induction n as [|n IH]; [reflexivity|].
  simpl. now rewrite IH.
Qed.

(** X16. The font is registered once.  However many times [caption] is
    called, [registerFont] is called by the first call only, and the flag
    stays set. *)
Theorem registerFonts_registers_once :
  forall n : nat,
    Fetch.registerFonts_calls (S n) false = ([Fetch.RegisterFont], true)
    /\ Fetch.registerFonts_calls n true = ([], true).
Proof.
  intros n. split; [|apply registerFonts_calls_registered].
  simpl. now rewrite registerFonts_calls_registered.
Qed.

(** ** The theorems above at sample inputs *)

Lemma six_words_positive :
  Forall (fun word : MeasuredWord Q => 0 < width word) six_words.
Proof. repeat constructor. Qed.

Lemma six_words_within_150 :
  Forall (fun word : MeasuredWord Q => 0 < width word /\ width word <= 150)
         six_words.
Proof. repeat constructor; vm_compute; discriminate. Qed.

Lemma linesNeeded_is_least_witness :
  six_words <> []
  /\ Forall (fun word : MeasuredWord Q => 0 < width word) six_words
  /\ 0 <= 10
  /\ forall gs, breaking 10 150 six_words gs ->
                (fst (calcAvgLineWidth six_words 10%Q 150%Q)
                 <= List.length gs)%nat.
Proof.
  assert (Hne : six_words <> []) by discriminate.
  assert (Hsp : 0 <= 10) by (vm_compute; discriminate).
  split; [exact Hne | split; [exact six_words_positive | split; [exact Hsp|]]].
  exact (proj2 (@linesNeeded_is_least six_words 10 150 Hne
                  six_words_positive Hsp)).
Defined.

Lemma balanced_line_count_witness :
  six_words <> []
  /\ Forall (fun word : MeasuredWord Q => 0 < width word) six_words
  /\ 0 <= 10
  /\ (fst (calcAvgLineWidth six_words 10%Q 150%Q)
      <= List.length (createBalancedLines six_words 10%Q 2 140%Q 150%Q)
      <= List.length six_words)%nat.
Proof.
  assert (Hne : six_words <> []) by discriminate.
  assert (Hsp : 0 <= 10) by (vm_compute; discriminate).
  split; [exact Hne | split; [exact six_words_positive | split; [exact Hsp|]]].
  exact (@balanced_line_count six_words 10 150 2 140 Hne
           six_words_positive Hsp).
Defined.

Lemma calcAvgLineWidth_total_witness :
  six_words <> []
  /\ Forall (fun word : MeasuredWord Q => 0 < width word) six_words
  /\ 0 <= 10
  /\ 0 < snd (calcAvgLineWidth six_words 10 150).
Proof.
  assert (Hne : six_words <> []) by discriminate.
  assert (Hsp : 0 <= 10) by (vm_compute; discriminate).
  split; [exact Hne | split; [exact six_words_positive | split; [exact Hsp|]]].
  exact (proj2 (proj2 (proj2 calcAvgLineWidth_total six_words 10 150 Hne
                         six_words_positive Hsp))).
Defined.

Lemma average_within_maxTextWidth_witness :
  six_words <> []
  /\ Forall (fun word : MeasuredWord Q => 0 < width word /\ width word <= 150)
            six_words
  /\ 0 <= 10
  /\ snd (calcAvgLineWidth six_words 10 150) <= 150.
Proof.
  assert (Hne : six_words <> []) by discriminate.
  assert (Hsp : 0 <= 10) by (vm_compute; discriminate).
  split; [exact Hne | split; [exact six_words_within_150 | split;
                                                           [exact Hsp|]]].
  exact (@average_within_maxTextWidth six_words 10 150 Hne
           six_words_within_150 Hsp).
Defined.

Lemma one_line_iff_fits_witness :
  firstn 3 six_words <> []
  /\ Forall (fun word : MeasuredWord Q => 0 < width word) (firstn 3 six_words)
  /\ 0 <= 10
  /\ (line_fits 10 150 (firstn 3 six_words)
      <-> balance (firstn 3 six_words) 10 150
          = Normal [join SPACE (map (@text Q) (firstn 3 six_words))]).
Proof.
  assert (Hne : firstn 3 six_words <> []) by discriminate.
  assert (Hpos : Forall (fun word : MeasuredWord Q => 0 < width word)
                        (firstn 3 six_words))
    by (repeat constructor).
  assert (Hsp : 0 <= 10) by (vm_compute; discriminate).
  split; [exact Hne | split; [exact Hpos | split; [exact Hsp|]]].
  exact (proj2 (@one_line_iff_fits (firstn 3 six_words) 10 150 Hne Hpos Hsp)).
Defined.

Lemma balanced_lines_within_limit_witness :
  Forall (fun word : MeasuredWord Q => 0 < width word /\ width word <= 150)
         six_words
  /\ 0 <= 10
  /\ Forall (fun grp => line_width 10 grp <= 150)
            (line_groups six_words 10 2 140 150).
Proof.
  assert (Hsp : 0 <= 10) by (vm_compute; discriminate).
  split; [exact six_words_within_150 | split; [exact Hsp|]].
  exact (proj2 (proj2 (proj2 balanced_lines_within_limit six_words 10 150
                         2%nat 140 six_words_within_150 Hsp))).
Defined.

Lemma caption_lines_are_stacked_witness :
  let lines : list (Line Q) := [line_of_height 24; line_of_height 24] in
  let image := {| Canvas.imageWidth := 1200; Canvas.imageHeight := 800 |} in
  let plan := Canvas.layout Canvas.CAPTION_DEFAULT_OPTS image lines in
  lines <> []
  /\ 0 <= Canvas.lineSpacing Canvas.CAPTION_DEFAULT_OPTS
  /\ Forall (fun line => 0 <= l_height line) lines
  /\ stacked_within (20 + 400 + 25) (snd (Canvas.finalCanvas plan) - 20)
                    (line_rects lines (Canvas.linePositions plan)).
Proof.
  intros lines image plan.
  assert (Hne : lines <> []) by discriminate.
  assert (Hls : 0 <= Canvas.lineSpacing (num := Q) Canvas.CAPTION_DEFAULT_OPTS)
    by (vm_compute; discriminate).
  assert (Hh : Forall (fun line => 0 <= l_height line) lines)
    by (repeat constructor; vm_compute; discriminate).
  split; [exact Hne | split; [exact Hls | split; [exact Hh|]]].
  exact (proj1 (proj2 caption_lines_are_stacked Canvas.CAPTION_DEFAULT_OPTS
                  image lines Hne Hls Hh)).
Defined.

Lemma image_stays_inside_padding_witness :
  let lines : list (Line PrimFloat.float) :=
    repeat (line_of_height (n_of_count 24)) 8 in
  let canvas := SquareLayout.finalCanvas 600 400 16 (n_of_count 2)
                  (n_of_count 24) lines in
  (0 <= 16)%Z
  /\ (SquareCanvas.canvas_width canvas - 600 < 2 ^ 32)%Z
  /\ (16 <= SquareLayout.imageX canvas 600)%Z.
Proof.
  intros lines canvas.
  assert (HP : (0 <= 16)%Z) by lia.
  assert (Hr : (SquareCanvas.canvas_width canvas - 600 < 2 ^ 32)%Z)
    by (vm_compute; reflexivity).
  split; [exact HP | split; [exact Hr|]].
  exact (proj1 (@image_stays_inside_padding PrimFloat.float binary64
                  binary64_math 600 400 16 (n_of_count 2) (n_of_count 24)
                  lines HP Hr)).
Defined.

Example quotedText_strips_urls :
  Bot.quotedText (lit "  Covfefe   is great https://t.co/abc HTTP://x.y ")
  = Bot.LEFT_QUOTE ++ lit "Covfefe is great" ++ Bot.RIGHT_QUOTE.
Proof. reflexivity. Qed.

Example squared_canvas_image :
  let canvas := fun (num : Type) (arith : JsNumber num) (math : JsMath num) =>
                  SquareLayout.finalCanvas 600 400 16 (n_of_count 2)
                    (n_of_count 24)
                    (repeat (line_of_height (n_of_count 24)) 8) in
  canvas PrimFloat.float binary64 binary64_math
  = {| SquareCanvas.canvas_width := 662;
       SquareCanvas.canvas_height := 662 |}
  /\ canvas Q exact exact_math
     = {| SquareCanvas.canvas_width := 662;
          SquareCanvas.canvas_height := 662 |}
  /\ SquareLayout.imageX (canvas PrimFloat.float binary64 binary64_math) 600
     = 31%Z.
Proof. cbv zeta. split; [|split]; vm_compute; reflexivity. Qed.
